(** * VFP documentation scraper: a shallow embedding and its properties

    The development follows [vfp_documentation_scraper.py]: a two-level
    crawler ([scrape_alphabet_index], [scrape_letter_page]), a content
    extractor ([extract_keyword_content]) and a result writer
    ([save_results]).

    A Python [str] is the list of its code points, lone surrogates
    included, as [chr] and the HTML parser can produce them.  Python [set]
    and [dict] are [gset] and [gmap]; a [dict] that is written out in
    order is an association list.  The progress lines the program prints
    and the pauses between two fetches leave the data untouched and are
    not modelled. *)

From Stdlib Require Import ZArith NArith Ascii String List Lia.
From Stdlib Require Import Decimal DecimalString DecimalZ DecimalPos.
From stdpp Require Import base option list gmap sets strings.

Local Open Scope stdpp_scope.
#[local] Set Warnings "-clear-no-such-hyp".

(** ** Python strings *)

(** A [str]: its code points in order. *)
Abbreviation str := (list N).

(** The [str] of a literal of the program text. *)
Fixpoint py (s : string) : str :=
  match s with
  | EmptyString => []
  | String c s' => N_of_ascii c :: py s'
  end.

#[warnings="-uniform-inheritance"]
Coercion py : string >-> list.

#[global] Arguments py : simpl never.

(** [ord] of a character of the program text. *)
Definition ord (c : ascii) : N := N_of_ascii c.

Module PyStr.

Definition between (lo hi c : N) : bool := ((lo <=? c) && (c <=? hi))%N.

(** [str.isspace] on one code point: the characters [str.strip]
    removes. *)
Definition isspace (c : N) : bool :=
  between 9 13 c || between 28 32 c || between 133 133 c
  || between 160 160 c || between 5760 5760 c || between 8192 8202 c
  || between 8232 8233 c || between 8239 8239 c || between 8287 8287 c
  || between 12288 12288 c.

(** [s.isalpha()]: at least one character, and every character a letter;
    [letter] stands for the table of letters of the Unicode database. *)
Definition isalpha (letter : N → bool) (s : str) : bool :=
  match s with
  | [] => false
  | _ => forallb letter s
  end.

(** [len(s)] *)
Definition len (s : str) : nat := length s.

(** Truth value of a string in a condition: [if s:]. *)
Definition truthy (s : str) : bool :=
  match s with [] => false | _ => true end.

Fixpoint lstrip (s : str) : str :=
  match s with
  | [] => []
  | c :: s' => if isspace c then lstrip s' else s
  end.

Fixpoint rstrip (s : str) : str :=
  match s with
  | [] => []
  | c :: s' =>
      match rstrip s' with
      | [] => if isspace c then [] else [c]
      | r => c :: r
      end
  end.

(** [s.strip()] *)
Definition strip (s : str) : str := rstrip (lstrip s).

(** [s.startswith(p)] *)
Fixpoint startswith (p s : str) : bool :=
  match p, s with
  | [], _ => true
  | a :: p', b :: s' => (a =? b)%N && startswith p' s'
  | _ :: _, [] => false
  end.

(** [sub in s] *)
Fixpoint contains (sub s : str) : bool :=
  startswith sub s ||
  match s with
  | [] => false
  | _ :: s' => contains sub s'
  end.

(** [''.join(l)] *)
Definition join (l : list str) : str := concat l.

(** The characters of a text that are no white space. *)
Definition inked (s : str) : str := filter (λ c, isspace c = false) s.

End PyStr.

(** ** The parsed document (BeautifulSoup tree) *)

(** A node of the tree built by [BeautifulSoup(text, 'html.parser')]:
    a text node, a special string that [get_text] leaves out (comment,
    doctype, declaration, the text of a script or style sheet), or a tag
    with its attribute dictionary and contents. *)
#[warnings="-register-all"]
Inductive Node : Type :=
| NavigableString (s : str)
| Comment (s : str)
| Tag (name : str) (attrs : gmap str str) (contents : list Node).

(** Induction on a tree, with the hypothesis for every child of a tag. *)
Fixpoint Node_forall_ind (P : Node → Prop)
    (Hstring : ∀ s, P (NavigableString s))
    (Hcomment : ∀ s, P (Comment s))
    (Htag : ∀ nm at_ cs, Forall P cs → P (Tag nm at_ cs))
    (n : Node) : P n :=
  match n with
  | NavigableString s => Hstring s
  | Comment s => Hcomment s
  | Tag nm at_ cs =>
      Htag nm at_ cs
        ((fix children (l : list Node) : Forall P l :=
            match l with
            | [] => List.Forall_nil P
            | c :: l' =>
                @List.Forall_cons Node P c l'
                  (Node_forall_ind P Hstring Hcomment Htag c) (children l')
            end) cs)
  end.

(** The [BeautifulSoup] object: the contents of the document root. *)
Definition Soup : Type := list Node.

Definition document_name : str := "[document]".

Module Bs4.

(** The text nodes below a node, in document order ([_all_strings]
    with the default types). *)
Fixpoint strings_of (n : Node) : list str :=
  match n with
  | NavigableString s => [s]
  | Comment _ => []
  | Tag _ _ cs => flat_map strings_of cs
  end.

(** [tag.get_text()], also [tag.text] *)
Definition get_text (n : Node) : str := PyStr.join (strings_of n).

(** [tag.get_text(strip=True)]: every string is stripped on its own,
    strings that become empty are dropped, the rest is joined. *)
Definition stripped_strings (n : Node) : list str :=
  filter (λ s, PyStr.truthy s = true) (map PyStr.strip (strings_of n)).

Definition get_text_strip (n : Node) : str :=
  PyStr.join (stripped_strings n).

(** A tag met while walking the tree, with the name of its parent. *)
Record Element : Type := mkElement {
  parent_name : str;
  tag_name : str;
  tag_attrs : gmap str str;
  tag_contents : list Node
}.

Definition node_of (e : Element) : Node :=
  Tag (tag_name e) (tag_attrs e) (tag_contents e).

(** The tags at and below a node in document order (pre-order). *)
Fixpoint walk (parent : str) (n : Node) : list Element :=
  match n with
  | Tag nm at_ cs => mkElement parent nm at_ cs :: flat_map (walk nm) cs
  | _ => []
  end.

(** [tag.descendants], restricted to tags. *)
Definition descendants (nm : str) (cs : list Node) : list Element :=
  flat_map (walk nm) cs.

Definition name_in (names : list str) (e : Element) : bool :=
  bool_decide (tag_name e ∈ names).

(** [find_all(names)] from a tag called [nm] with contents [cs]. *)
Definition find_all (names : list str) (nm : str) (cs : list Node)
  : list Element :=
  filter (λ e, name_in names e = true) (descendants nm cs).

(** [find_all(name, href=True)]: the attribute must be present. *)
Definition find_all_href (name : str) (nm : str) (cs : list Node)
  : list Element :=
  filter (λ e, is_Some (tag_attrs e !! py "href")) (find_all [name] nm cs).

(** [tag['href']] on a tag that has the attribute. *)
Definition href (e : Element) : str := default [] (tag_attrs e !! py "href").

(** [soup.find(name)]: first match in document order *)
Definition find (name : str) (soup : Soup) : option Element :=
  head (find_all [name] document_name soup).

Definition title (soup : Soup) : option Element := find "title" soup.
Definition body (soup : Soup) : option Element := find "body" soup.

End Bs4.

(** ** The content extractor *)

(** The dictionary built by [extract_keyword_content]. *)
Record PageRecord : Type := mkPageRecord {
  url : str;
  title : str;
  text_content : list str;
  code_blocks : list str
}.

Module Extractor.
Import Bs4.

Definition text_tags : list str :=
  map py ["p"; "h1"; "h2"; "h3"; "h4"; "h5"; "h6"; "li"].
Definition nav_tags : list str := map py ["nav"; "header"; "footer"].
Definition code_tags : list str := map py ["pre"; "code"].

(** [soup.title.text.strip() if soup.title else "No title"] *)
Definition page_title (soup : Soup) : str :=
  match Bs4.title soup with
  | Some t => PyStr.strip (get_text (node_of t))
  | None => "No title"
  end.

(** Body of the loop of lines 53-60: [continue] under a nav, header or
    footer parent, else append the text when it is not empty. *)
Definition text_step (acc : list str) (element : Element) : list str :=
  if bool_decide (parent_name element ∈ nav_tags) then acc
  else
    let text := get_text_strip (node_of element) in
    if PyStr.truthy text then acc ++ [text] else acc.

(** Body of the loop of lines 64-67. *)
Definition code_step (acc : list str) (code : Element) : list str :=
  let code_text := get_text_strip (node_of code) in
  if PyStr.truthy code_text then acc ++ [code_text] else acc.

(** Lines 38-74 of [extract_keyword_content], after the fetch. *)
Definition extract (url : str) (soup : Soup) : PageRecord :=
  let title := page_title soup in
  match Bs4.body soup with
  | None => mkPageRecord url title [] []
  | Some main_content =>
      let text_content :=
        fold_left text_step
          (find_all text_tags (tag_name main_content) (tag_contents main_content)) [] in
      let code_blocks :=
        fold_left code_step
          (find_all code_tags (tag_name main_content) (tag_contents main_content)) [] in
      mkPageRecord url title text_content code_blocks
  end.

(** *** Which elements contribute

    The elements named by the description of the extractor: a text
    element is a heading, paragraph or list item whose immediate parent
    is not a nav, header or footer and whose trimmed text is not empty;
    a code element is a [pre] or [code] with non-empty trimmed text. *)

Definition text_of (e : Element) : str := get_text_strip (node_of e).

Definition is_text_element (e : Element) : Prop :=
  tag_name e ∈ text_tags ∧ (parent_name e ∉ nav_tags) ∧ (text_of e ≠ []).

Definition is_code_element (e : Element) : Prop :=
  tag_name e ∈ code_tags ∧ (text_of e ≠ []).

Global Instance is_text_element_dec e : Decision (is_text_element e).
Proof. unfold is_text_element. apply _. Defined.

Global Instance is_code_element_dec e : Decision (is_code_element e).
Proof. unfold is_code_element. apply _. Defined.

(** The tags below an element, and the tags of a whole document. *)
Definition elements_below (e : Element) : list Element :=
  descendants (tag_name e) (tag_contents e).

Definition document_elements (soup : Soup) : list Element :=
  descendants document_name soup.

(** In document order a tag is followed at once by the tags below it. *)
Definition preorder_at (n : Node) : Prop :=
  ∀ parent e, e ∈ walk parent n →
    ∃ l1 l3, walk parent n = l1 ++ e :: elements_below e ++ l3.

(** The strings below a tag are a run of the strings of any tag above. *)
Definition strings_within (n : Node) : Prop :=
  ∀ parent d, d ∈ walk parent n →
    ∃ a b, strings_of n = a ++ strings_of (node_of d) ++ b.

End Extractor.

(** ** The fetcher *)

(** What one [requests.get(url, timeout=10)] followed by the parser can
    meet: the request raises (no connection, or no answer within the
    timeout), or a response arrives with a status code; [parsed] is the
    tree [BeautifulSoup(response.text, 'html.parser')] builds, [None] when
    the parser raises. *)
Inductive Reply : Type :=
| ConnectionFailure
| TimedOut
| Response (status_code : Z) (parsed : option Soup).

Inductive Exn : Type :=
| ConnectionError
| Timeout
| HTTPError (status_code : Z)
| ParserError
| OSError.

(** Result of a block that may raise. *)
Inductive Try (A : Type) : Type :=
| Returns (a : A)
| Raises (e : Exn).
Arguments Returns {A} a.
Arguments Raises {A} e.

(** The call site of a fetch: line 81, line 114 or line 34. *)
Inductive Caller : Type := FromIndex | FromLetter | FromKeyword.

Global Instance Caller_eq_dec : EqDecision Caller.
Proof. solve_decision. Defined.

(** One HTTP exchange of the run: who asked, which URL, and what
    [fetch_page] returned. *)
Record Exchange : Type := mkExchange {
  caller : Caller;
  request : str;
  fetched : option Soup
}.

(** The crawl session: the two attributes the scraper mutates, and the
    exchanges made so far. *)
Record Scraper : Type := mkScraper {
  visited_urls : gset str;
  results : list PageRecord;
  exchanges : list Exchange
}.

Module Fetcher.

(** [response.raise_for_status()]: client and server error codes raise. *)
Definition raise_for_status (status_code : Z) : Try unit :=
  if ((400 <=? status_code) && (status_code <? 600))%Z
  then Raises (HTTPError status_code)
  else Returns tt.

(** The [try] block of [fetch_page], lines 24-27. *)
Definition fetch_try (r : Reply) : Try Soup :=
  match r with
  | ConnectionFailure => Raises ConnectionError
  | TimedOut => Raises Timeout
  | Response status_code parsed =>
      match raise_for_status status_code with
      | Raises e => Raises e
      | Returns _ =>
          match parsed with
          | Some soup => Returns soup
          | None => Raises ParserError
          end
      end
  end.

(** [except Exception: ... return None], lines 28-30. *)
Definition fetch_catch (t : Try Soup) : option Soup :=
  match t with
  | Returns soup => Some soup
  | Raises _ => None
  end.

End Fetcher.

(** ** The index walker *)

Module Crawler.

Section Crawl.

(** [urllib.parse.urljoin], and the [netloc] and [path] fields of
    [urllib.parse.urlparse]. *)
Variable urljoin : str → str → str.
Variable netloc : str → str.
Variable path : str → str.

(** The letters of the Unicode database, as [str.isalpha] uses them. *)
Variable is_letter : N → bool.

(** The site: the reply to a request, given the exchanges before it. *)
Variable web : list Exchange → str → Reply.

(** [self.index_url] *)
Variable index_url : str.

Definition LetterLink : Type := (str * str)%type.
Definition KeywordLink : Type := (str * str)%type.

(** [__init__], lines 13-14. *)
Definition init : Scraper := mkScraper ∅ [] [].

(** [f"{parsed.netloc}{parsed.path}"], lines 131-132. *)
Definition normalized_url (full_url : str) : str :=
  netloc full_url ++ path full_url.

(** [fetch_page], with the exchange recorded. *)
Definition fetch_page (who : Caller) (self : Scraper) (url : str)
  : Scraper * option Soup :=
  let soup := Fetcher.fetch_catch (Fetcher.fetch_try (web (exchanges self) url)) in
  (mkScraper (visited_urls self) (results self)
             (exchanges self ++ [mkExchange who url soup]),
   soup).

(** [extract_keyword_content]: a tag is always true in a condition, so
    [not soup] holds exactly for [None]. *)
Definition extract_keyword_content (self : Scraper) (url : str)
  : Scraper * option PageRecord :=
  let '(self, soup) := fetch_page FromKeyword self url in
  match soup with
  | None => (self, None)
  | Some soup => (self, Some (Extractor.extract url soup))
  end.

(** Body of the loop of lines 122-138 over [visited_urls] and
    [keyword_links]. *)
Definition keyword_step (url : str)
    (acc : gset str * list KeywordLink) (a_tag : Bs4.Element)
  : gset str * list KeywordLink :=
  let href := Bs4.href a_tag in
  if negb (PyStr.contains "section4/" href) then acc
  else
    let full_url := urljoin url href in
    let normalized := normalized_url full_url in
    if bool_decide (normalized ∈ acc.1) then acc
    else ({[normalized]} ∪ acc.1,
          acc.2 ++ [(Bs4.get_text_strip (Bs4.node_of a_tag), full_url)]).

(** Lines 120-138: the keyword links kept on a letter page. *)
Definition keyword_links (self : Scraper) (url : str) (soup : Soup)
  : Scraper * list KeywordLink :=
  let '(visited, links) :=
    fold_left (keyword_step url)
              (Bs4.find_all_href "a" document_name soup)
              (visited_urls self, []) in
  (mkScraper visited (results self) (exchanges self), links).

(** Body of the loop of lines 143-151; a non-empty dictionary is true
    in a condition, so [if keyword_data] fails exactly for [None]. *)
Definition process_keyword (self : Scraper) (link : KeywordLink) : Scraper :=
  let '(self, keyword_data) := extract_keyword_content self link.2 in
  match keyword_data with
  | Some data =>
      mkScraper (visited_urls self) (results self ++ [data]) (exchanges self)
  | None => self
  end.

(** [scrape_letter_page] *)
Definition scrape_letter_page (self : Scraper) (letter url : str) : Scraper :=
  let '(self, soup) := fetch_page FromLetter self url in
  match soup with
  | None => self
  | Some soup =>
      let '(self, links) := keyword_links self url soup in
      fold_left process_keyword links self
  end.

(** Body of the loop of lines 90-98. *)
Definition letter_step (acc : list LetterLink) (a_tag : Bs4.Element)
  : list LetterLink :=
  let href := Bs4.href a_tag in
  let link_text := Bs4.get_text_strip (Bs4.node_of a_tag) in
  if (Nat.eqb (PyStr.len link_text) 1 && PyStr.isalpha is_letter link_text)
     || bool_decide (link_text = py "@")
  then
    if PyStr.contains "section4/" href || PyStr.startswith "#" href
    then acc ++ [(link_text, urljoin index_url href)]
    else acc
  else acc.

(** Lines 87-98: the letter links of the index page. *)
Definition letter_links (soup : Soup) : list LetterLink :=
  fold_left letter_step (Bs4.find_all_href "a" document_name soup) [].

(** Lines 103-107. *)
Definition scrape_letters (self : Scraper) (links : list LetterLink) : Scraper :=
  fold_left (λ self link, scrape_letter_page self link.1 link.2) links self.

(** [scrape_alphabet_index] *)
Definition scrape_alphabet_index (self : Scraper) : Scraper :=
  let '(self, soup) := fetch_page FromIndex self index_url in
  match soup with
  | None => self
  | Some soup => scrape_letters self (letter_links soup)
  end.

(** *** What a run shows *)

(** The exchanges made by [extract_keyword_content], in order. *)
Definition keyword_exchanges (log : list Exchange) : list Exchange :=
  filter (λ e, caller e = FromKeyword) log.

Definition keyword_requests (log : list Exchange) : list str :=
  map request (keyword_exchanges log).

(** The record a keyword exchange leads to. *)
Definition recorded (e : Exchange) : option PageRecord :=
  match caller e with
  | FromKeyword => Extractor.extract (request e) <$> fetched e
  | _ => None
  end.

(** Every keyword link on a letter page fetched from [url], resolved
    against that URL, in document order (before de-duplication). *)
Definition section4_refs (url : str) (soup : Soup) : list str :=
  map (λ a, urljoin url (Bs4.href a))
    (filter (λ a, PyStr.contains "section4/" (Bs4.href a) = true)
       (Bs4.find_all_href "a" document_name soup)).

(** The keyword links discovered by an exchange, and by a run. *)
Definition refs_of (e : Exchange) : list str :=
  match caller e, fetched e with
  | FromLetter, Some soup => section4_refs (request e) soup
  | _, _ => []
  end.

Definition discovered (log : list Exchange) : list str :=
  flat_map refs_of log.

Definition key_of (link : KeywordLink) : str := normalized_url link.2.

(** The records whose URL normalizes to [key]. *)
Definition records_for (key : str) (rs : list PageRecord) : list PageRecord :=
  filter (λ r, normalized_url (url r) = key) rs.

(** A session between two letter pages: every visited key has been
    asked for once by [extract_keyword_content], every discovered link is
    visited, and the results are the records of the keyword exchanges. *)
Record consistent (self : Scraper) : Prop := mkConsistent {
  fetched_once :
    NoDup (map normalized_url (keyword_requests (exchanges self)));
  visited_fetched : ∀ k,
    k ∈ visited_urls self ↔
    k ∈ map normalized_url (keyword_requests (exchanges self));
  discovered_visited : ∀ u,
    u ∈ discovered (exchanges self) → normalized_url u ∈ visited_urls self;
  results_recorded :
    results self = omap recorded (exchanges self)
}.

(** *** Letter links, as described

    A hyperlink is accepted when its trimmed text is one alphabetic
    character or the literal [@], and its target contains the marker of
    the keyword section or is a same-page anchor. *)

Definition one_alphabetic (s : str) : Prop :=
  match s with
  | [c] => is_letter c = true
  | _ => False
  end.

Definition letter_text (s : str) : Prop := one_alphabetic s ∨ s = py "@".

Definition letter_target (href : str) : Prop :=
  PyStr.contains "section4/" href = true ∨ PyStr.startswith "#" href = true.

Definition accepted (a : Bs4.Element) : Prop :=
  letter_text (Bs4.get_text_strip (Bs4.node_of a)) ∧ letter_target (Bs4.href a).

Global Instance one_alphabetic_dec s : Decision (one_alphabetic s).
Proof. destruct s as [|c [|]]; simpl; apply _. Defined.

Global Instance accepted_dec a : Decision (accepted a).
Proof. unfold accepted, letter_text, letter_target. apply _. Defined.

(** The hyperlinks of a page: its [a] tags that carry an [href]. *)
Definition hyperlinks (soup : Soup) : list Bs4.Element :=
  Bs4.find_all_href "a" document_name soup.

Definition as_letter_link (a : Bs4.Element) : LetterLink :=
  (Bs4.get_text_strip (Bs4.node_of a), urljoin index_url (Bs4.href a)).

(** The exchanges of one letter page: the fetch of the page, then the
    keyword exchanges, which follow the document order of the keyword
    links found on it. *)
Definition letter_block (link : LetterLink) (block : list Exchange) : Prop :=
  ∃ e kws,
    block = e :: kws
    ∧ caller e = FromLetter
    ∧ request e = link.2
    ∧ Forall (λ k, caller k = FromKeyword) kws
    ∧ sublist (map request kws) (refs_of e).

(** The keyword exchanges made for a normalized URL. *)
Definition attempts_for (key : str) (log : list Exchange) : list Exchange :=
  filter (λ e, normalized_url (request e) = key) (keyword_exchanges log).

(** Every keyword exchange comes after the exchange of the letter page
    on which its link was discovered. *)
Definition fetched_after_discovery (log : list Exchange) : Prop :=
  ∀ i e,
    log !! i = Some e → caller e = FromKeyword →
    request e ∈ discovered (take i log).

(** A fetch that fails: no connection, no answer in time, a client or
    server error status, or a body the parser rejects. *)
Definition fetch_fails (r : Reply) : Prop :=
  match r with
  | ConnectionFailure => True
  | TimedOut => True
  | Response status_code parsed =>
      (400 ≤ status_code < 600)%Z ∨ parsed = None
  end.

(** A fetch that fails as the specification has it: any status that is
    not a success (200 to 299) counts. *)
Definition fetch_fails_as_specified (r : Reply) : Prop :=
  match r with
  | ConnectionFailure => True
  | TimedOut => True
  | Response status_code parsed =>
      ¬ (200 ≤ status_code < 300)%Z ∨ parsed = None
  end.

End Crawl.

End Crawler.

(** ** A model of [urllib.parse] for plain URLs

    Enough of [urljoin] and [urlparse] to run the crawler on concrete
    sites: URLs of the form [scheme://netloc/path?query#fragment] and
    references that are absolute, rooted at [/], a bare fragment or
    relative to the directory of the base.  The properties of the crawler
    are proved for any [urljoin], [netloc] and [path]. *)

Module Urllib.

Definition is_char (c : ascii) (x : N) : bool := (ord c =? x)%N.

(** The prefix before the first character that satisfies [stop], and
    the rest from that character on. *)
Fixpoint break_at (stop : N → bool) (s : str) : str * str :=
  match s with
  | [] => ([], [])
  | c :: s' =>
      if stop c then ([], s)
      else let '(a, b) := break_at stop s' in (c :: a, b)
  end.

Definition scheme_char (c : N) : bool :=
  PyStr.between 97 122 c || PyStr.between 65 90 c || PyStr.between 48 57 c
  || is_char "+" c || is_char "-" c || is_char "." c.

(** [scheme://rest] gives [(scheme, rest)]. *)
Definition split_scheme (u : str) : option (str * str) :=
  let '(a, r) := break_at (is_char ":") u in
  if PyStr.truthy a && forallb scheme_char a && PyStr.startswith "://" r
  then Some (a, drop 3 r) else None.

Definition stops_netloc (c : N) : bool :=
  is_char "/" c || is_char "?" c || is_char "#" c.
Definition stops_path (c : N) : bool :=
  is_char "?" c || is_char "#" c.

Definition netloc (u : str) : str :=
  match split_scheme u with
  | Some (_, r) => (break_at stops_netloc r).1
  | None => []
  end.

Definition path (u : str) : str :=
  match split_scheme u with
  | Some (_, r) => (break_at stops_path (break_at stops_netloc r).2).1
  | None => (break_at stops_path u).1
  end.

(** The path up to and including its last [/]. *)
Fixpoint dirname (p : str) : str :=
  match p with
  | [] => []
  | c :: p' =>
      match dirname p' with
      | [] => if is_char "/" c then [c] else []
      | d => c :: d
      end
  end.

Definition root (u : str) : str :=
  match split_scheme u with
  | Some (sch, _) => sch ++ "://" ++ netloc u
  | None => []
  end.

Definition urljoin (base ref : str) : str :=
  match ref with
  | [] => base
  | c :: _ =>
      if bool_decide (is_Some (split_scheme ref)) then ref
      else if is_char "/" c then root base ++ ref
      else if is_char "#" c then (break_at (is_char "#") base).1 ++ ref
      else root base ++ dirname (path base) ++ ref
  end.

End Urllib.

(** ** The letters below code point 256

    The part of the table of letters used on concrete pages: the
    letters of ASCII and of Latin-1. *)

Module Unicode.

Definition latin_letter (c : N) : bool :=
  PyStr.between 65 90 c || PyStr.between 97 122 c
  || PyStr.between 170 170 c || PyStr.between 181 181 c
  || PyStr.between 186 186 c || PyStr.between 192 214 c
  || PyStr.between 216 246 c || PyStr.between 248 255 c.

End Unicode.

(** ** Concrete sites *)

Module Site.

(** A site that answers by URL alone; unknown URLs give 404. *)
Fixpoint lookup (pages : list (str * Reply)) (u : str) : Reply :=
  match pages with
  | [] => Response 404 None
  | (k, r) :: rest => if bool_decide (k = u) then r else lookup rest u
  end.

Definition static (pages : list (str * Reply))
  : list Exchange → str → Reply :=
  λ _ u, lookup pages u.

Definition link (href text : str) : Node :=
  Tag "a" {[ py "href" := href ]} [NavigableString text].

Definition page (ttl : str) (content : list Node) : Reply :=
  Response 200
    (Some [Tag "html" ∅
             [Tag "head" ∅ [Tag "title" ∅ [NavigableString ttl]];
              Tag "body" ∅ content]]).

Definition run (pages : list (str * Reply)) (index_url : str) : Scraper :=
  Crawler.scrape_alphabet_index Urllib.urljoin Urllib.netloc Urllib.path
    Unicode.latin_letter (static pages) index_url Crawler.init.

Definition index : str := "https://h/section4/".

Definition index_page : Reply :=
  page "Index" [link "/section4/a.html" "A"; link "/section4/at.html" "@"].

Definition letter_a_page : Reply :=
  page "A" [link "/section4/abc.html" "ABS()";
            link "/section4/abc.html?q=1#frag" "ABS again"].

Definition abs_page : Reply :=
  page "ABS()"
    [Tag "h1" ∅ [NavigableString "Returns absolute value"];
     Tag "footer" ∅ [Tag "p" ∅ [NavigableString "Copyright"]];
     Tag "pre" ∅ [NavigableString "? ABS(-5)"]].

(** Two letters, the second missing; the page of [A] links twice to one
    keyword page. *)
Definition small : list (str * Reply) :=
  [(index, index_page);
   (py "https://h/section4/a.html", letter_a_page);
   (py "https://h/section4/abc.html", abs_page)].

(** The same site with the keyword page gone. *)
Definition broken : list (str * Reply) :=
  [(index, index_page);
   (py "https://h/section4/a.html", letter_a_page)].

(** A letter page that links to itself, as a navigation bar does. *)
Definition self_linked : list (str * Reply) :=
  [(index, page "Index" [link "/section4/a.html" "A"]);
   (py "https://h/section4/a.html", page "A" [link "/section4/a.html" "A"])].

(** The keyword page answers [304 Not Modified], with no body: the
    parser builds an empty tree. *)
Definition unchanged : list (str * Reply) :=
  [(index, index_page);
   (py "https://h/section4/a.html", letter_a_page);
   (py "https://h/section4/abc.html", Response 304 (Some []))].

End Site.

(** ** The [json] module

    The encoder is [json.dump(obj, f, indent=2)] on strings, integers,
    lists and dictionaries with string keys; the decoder is [json.loads]
    with the strict scanner.  Floating-point numbers are outside the
    model: the decoder returns [None] for a document with one, as it does
    for a malformed document. *)

Module Json.

#[warnings="-register-all"]
Inductive value : Type :=
| JNull
| JBool (b : bool)
| JInt (z : Z)
| JStr (s : str)
| JArr (items : list value)
| JObj (members : list (str * value)).

Definition dquote : N := 34.
Definition backslash : N := 92.
Definition lf : N := 10.

(** *** Surrogates *)

Definition is_high (c : N) : bool := PyStr.between 55296 56319 c.
Definition is_low (c : N) : bool := PyStr.between 56320 57343 c.

(** The high and the low surrogate of a code point above [0xFFFF]. *)
Definition high_of (c : N) : N :=
  N.lor 55296 (N.land (N.shiftr (c - 65536) 10) 1023).
Definition low_of (c : N) : N :=
  N.lor 56320 (N.land (c - 65536) 1023).

(** [0x10000 + (((uni - 0xd800) << 10) | (uni2 - 0xdc00))] *)
Definition pair (uni uni2 : N) : N :=
  (65536 + N.lor (N.shiftl (uni - 55296) 10) (uni2 - 56320))%N.

(** *** Encoder *)

Definition hex_char (n : N) : N :=
  if (n <? 10)%N then (48 + n)%N else (87 + n)%N.

(** ['{0:04x}'.format(n)] *)
Definition hex_digits (n : N) : str :=
  [hex_char (n / 4096 mod 16); hex_char (n / 256 mod 16);
   hex_char (n / 16 mod 16); hex_char (n mod 16)]%N.

Definition u_escape (n : N) : str :=
  backslash :: ord "u" :: hex_digits n.

(** [ESCAPE_DCT] and the [replace] function of
    [py_encode_basestring_ascii]: printable ASCII stays, the rest is
    escaped, a code point above [0xFFFF] as its two surrogates. *)
Definition escape (c : N) : str :=
  if (c =? 34)%N then [backslash; dquote]
  else if (c =? 92)%N then [backslash; backslash]
  else if (c =? 10)%N then [backslash; ord "n"]
  else if (c =? 13)%N then [backslash; ord "r"]
  else if (c =? 9)%N then [backslash; ord "t"]
  else if (c =? 8)%N then [backslash; ord "b"]
  else if (c =? 12)%N then [backslash; ord "f"]
  else if PyStr.between 32 126 c then [c]
  else if (c <? 65536)%N then u_escape c
  else u_escape (high_of c) ++ u_escape (low_of c).

Definition escape_all (s : str) : str := flat_map escape s.

Definition encode_string (s : str) : str :=
  dquote :: escape_all s ++ [dquote].

(** ['\\n' + ' ' * (indent * level)] with [indent = 2] *)
Definition newline_indent (level : nat) : str :=
  lf :: replicate (2 * level) (ord " ").

Definition item_separator (level : nat) : str :=
  ord "," :: newline_indent level.

(** The items of a list or dictionary: a separator before each but the
    first. *)
Fixpoint encode_items {A} (enc : A → str) (sep : str) (l : list A) : str :=
  match l with
  | [] => []
  | [x] => enc x
  | x :: rest => enc x ++ sep ++ encode_items enc sep rest
  end.

(** [int.__repr__] *)
Definition encode_int (z : Z) : str := py (NilZero.string_of_int (Z.to_int z)).

Fixpoint encode (level : nat) (v : value) : str :=
  match v with
  | JNull => "null"
  | JBool true => "true"
  | JBool false => "false"
  | JInt z => encode_int z
  | JStr s => encode_string s
  | JArr [] => "[]"
  | JArr items =>
      py "[" ++ newline_indent (S level)
      ++ encode_items (encode (S level)) (item_separator (S level)) items
      ++ newline_indent level ++ py "]"
  | JObj [] => "{}"
  | JObj members =>
      py "{" ++ newline_indent (S level)
      ++ encode_items
           (λ kv, encode_string kv.1 ++ py ": " ++ encode (S level) kv.2)
           (item_separator (S level)) members
      ++ newline_indent level ++ py "}"
  end.

(** One entry of a dictionary, as [encode] writes it. *)
Definition encode_member (level : nat) (kv : str * value) : str :=
  encode_string kv.1 ++ py ": " ++ encode level kv.2.

(** [json.dumps(obj, indent=2)]: what [json.dump] writes. *)
Definition dumps (v : value) : str := encode 0 v.

(** *** Decoder *)

Definition is_char (x : ascii) (c : N) : bool := (ord x =? c)%N.

(** [WHITESPACE]: space, tab, line feed, carriage return. *)
Definition is_ws (c : N) : bool :=
  (c =? 32)%N || (c =? 9)%N || (c =? 10)%N || (c =? 13)%N.

Fixpoint skip_ws (s : str) : str :=
  match s with
  | [] => []
  | c :: s' => if is_ws c then skip_ws s' else s
  end.

Definition hex_value (c : N) : option N :=
  if PyStr.between 48 57 c then Some (c - 48)%N
  else if PyStr.between 97 102 c then Some (c - 87)%N
  else if PyStr.between 65 70 c then Some (c - 55)%N
  else None.

(** [_decode_uXXXX] *)
Definition hex4 (a b c d : N) : option N :=
  match hex_value a, hex_value b, hex_value c, hex_value d with
  | Some x, Some y, Some z, Some w => Some (((x * 16 + y) * 16 + z) * 16 + w)%N
  | _, _, _, _ => None
  end.

(** [BACKSLASH]: the one-letter escapes. *)
Definition unescape (e : N) : option N :=
  if (e =? dquote)%N then Some dquote
  else if (e =? backslash)%N then Some backslash
  else if is_char "/" e then Some (ord "/")
  else if is_char "b" e then Some 8%N
  else if is_char "f" e then Some 12%N
  else if is_char "n" e then Some 10%N
  else if is_char "r" e then Some 13%N
  else if is_char "t" e then Some 9%N
  else None.

Definition push {B} (c : N) (r : str * B) : str * B := (c :: r.1, r.2).

(** [scanstring] in strict mode, from after the opening quote: the
    string and what follows the closing quote.  After the escape of a
    high surrogate the next escape is read ahead, and the two are joined
    when it is a low surrogate. *)
Fixpoint scanstring (s : str) : option (str * str) :=
  match s with
  | [] => None
  | c :: rest =>
      if (c =? dquote)%N then Some ([], rest)
      else if (c =? backslash)%N then
        match rest with
        | [] => None
        | e :: rest1 =>
            if is_char "u" e then
              match rest1 with
              | h1 :: h2 :: h3 :: h4 :: rest2 =>
                  match hex4 h1 h2 h3 h4 with
                  | None => None
                  | Some uni =>
                      match rest2 with
                      | b :: u :: rest3 =>
                          if is_high uni && (b =? backslash)%N && is_char "u" u
                          then
                            match rest3 with
                            | l1 :: l2 :: l3 :: l4 :: rest4 =>
                                match hex4 l1 l2 l3 l4 with
                                | None => None
                                | Some uni2 =>
                                    if is_low uni2
                                    then push (pair uni uni2) <$> scanstring rest4
                                    else push uni <$> scanstring rest2
                                end
                            | _ => None
                            end
                          else push uni <$> scanstring rest2
                      | _ => push uni <$> scanstring rest2
                      end
                  end
              | _ => None
              end
            else
              match unescape e with
              | Some ch => push ch <$> scanstring rest1
              | None => None
              end
        end
      else if (c <? 32)%N then None
      else push c <$> scanstring rest
  end.

Definition is_digit (c : N) : bool := PyStr.between 48 57 c.

(** The longest run of digits at the front. *)
Fixpoint span_digits (s : str) : str * str :=
  match s with
  | [] => ([], [])
  | c :: s' =>
      if is_digit c then let '(a, b) := span_digits s' in (c :: a, b)
      else ([], s)
  end.

(** [int(digits)] as a decimal numeral. *)
Fixpoint uint_of_digits (ds : str) : option uint :=
  match ds with
  | [] => Some Nil
  | c :: ds' => uint_of_char (ascii_of_N c) (uint_of_digits ds')
  end.

(** The integer part of [NUMBER_RE]: [0], or a run of digits that does
    not begin with [0]. *)
Definition scan_natural (s : str) : option (Z * str) :=
  match s with
  | [] => None
  | c :: rest =>
      if is_char "0" c then Some (0%Z, rest)
      else if is_digit c then
        let '(ds, rest') := span_digits s in
        (λ d, (Z.of_uint d, rest')) <$> uint_of_digits ds
      else None
  end.

Definition scan_int (s : str) : option (Z * str) :=
  match s with
  | c :: rest =>
      if is_char "-" c then (λ r, (Z.opp r.1, r.2)) <$> scan_natural rest
      else scan_natural s
  | [] => None
  end.

Definition literal (word : str) (v : value) (s : str)
  : option (value * str) :=
  if PyStr.startswith word s then Some (v, drop (length word) s) else None.

(** [dict(pairs)]: a later value for a key replaces the earlier one, in
    the place of the earlier one. *)
Fixpoint dict_set (k : str) (v : value) (d : list (str * value))
  : list (str * value) :=
  match d with
  | [] => [(k, v)]
  | (k', v') :: d' =>
      if bool_decide (k' = k) then (k, v) :: d' else (k', v') :: dict_set k v d'
  end.

Definition dict (pairs : list (str * value)) : list (str * value) :=
  fold_left (λ d kv, dict_set kv.1 kv.2 d) pairs [].

(** [scan_once], [JSONArray] and [JSONObject]; [fuel] bounds the number
    of nested calls, the length of the text is enough. *)
Fixpoint scan_once (fuel : nat) (s : str) {struct fuel}
  : option (value * str) :=
  match fuel with
  | O => None
  | S fuel' =>
      match s with
      | [] => None
      | c :: rest =>
          if (c =? dquote)%N then (λ r, (JStr r.1, r.2)) <$> scanstring rest
          else if is_char "{" c then
            match skip_ws rest with
            | c1 :: rest1 =>
                if is_char "}" c1 then Some (JObj [], rest1)
                else (λ r, (JObj (dict r.1), r.2))
                       <$> scan_members fuel' (c1 :: rest1)
            | [] => None
            end
          else if is_char "[" c then
            match skip_ws rest with
            | c1 :: rest1 =>
                if is_char "]" c1 then Some (JArr [], rest1)
                else (λ r, (JArr r.1, r.2))
                       <$> scan_items fuel' (c1 :: rest1)
            | [] => None
            end
          else if is_char "n" c then literal "null" JNull s
          else if is_char "t" c then literal "true" (JBool true) s
          else if is_char "f" c then literal "false" (JBool false) s
          else (λ r, (JInt r.1, r.2)) <$> scan_int s
      end
  end
with scan_items (fuel : nat) (s : str) {struct fuel}
  : option (list value * str) :=
  match fuel with
  | O => None
  | S fuel' =>
      match scan_once fuel' s with
      | None => None
      | Some (v, r) =>
          match skip_ws r with
          | c :: r' =>
              if is_char "]" c then Some ([v], r')
              else if is_char "," c then
                (λ x, (v :: x.1, x.2)) <$> scan_items fuel' (skip_ws r')
              else None
          | [] => None
          end
      end
  end
with scan_members (fuel : nat) (s : str) {struct fuel}
  : option (list (str * value) * str) :=
  match fuel with
  | O => None
  | S fuel' =>
      match s with
      | q :: s1 =>
          if (q =? dquote)%N then
            match scanstring s1 with
            | None => None
            | Some (key, r0) =>
                match skip_ws r0 with
                | colon :: r1 =>
                    if is_char ":" colon then
                      match scan_once fuel' (skip_ws r1) with
                      | None => None
                      | Some (v, r) =>
                          match skip_ws r with
                          | c :: r' =>
                              if is_char "}" c then Some ([(key, v)], r')
                              else if is_char "," c then
                                (λ x, ((key, v) :: x.1, x.2))
                                  <$> scan_members fuel' (skip_ws r')
                              else None
                          | [] => None
                          end
                      end
                    else None
                | [] => None
                end
            end
          else None
      | [] => None
      end
  end.

(** [json.loads(s)] *)
Definition loads (s : str) : option value :=
  match scan_once (S (length s)) (skip_ws s) with
  | Some (v, r) =>
      match skip_ws r with
      | [] => Some v
      | _ => None
      end
  | None => None
  end.

(** [d[key]] *)
Fixpoint get (key : str) (d : list (str * value)) : option value :=
  match d with
  | [] => None
  | (k, v) :: d' => if bool_decide (k = key) then Some v else get key d'
  end.

(** *** What is read back *)

(** A string as the decoder returns it: a high surrogate followed by a
    low surrogate has become one code point. *)
Fixpoint join_pairs (s : str) : str :=
  match s with
  | [] => []
  | h :: s' =>
      match s' with
      | l :: s'' =>
          if is_high h && is_low l then pair h l :: join_pairs s''
          else h :: join_pairs s'
      | [] => [h]
      end
  end.

(** A value as the decoder returns it. *)
Fixpoint reread (v : value) : value :=
  match v with
  | JStr s => JStr (join_pairs s)
  | JArr items => JArr (map reread items)
  | JObj members =>
      JObj (dict (map (λ kv, (join_pairs kv.1, reread kv.2)) members))
  | _ => v
  end.

Definition reread_member (kv : str * value) : str * value :=
  (join_pairs kv.1, reread kv.2).

(** The code points of a [str] are below [0x110000]. *)
Definition valid_str (s : str) : Prop := Forall (λ c, (c < 1114112)%N) s.

(** A text of characters below 256, as every literal of the program. *)
Definition latin (s : str) : Prop := Forall (λ c, (c < 256)%N) s.

#[warnings="-register-all"]
Inductive valid : value → Prop :=
| valid_null : valid JNull
| valid_bool b : valid (JBool b)
| valid_int z : valid (JInt z)
| valid_str_ s : valid_str s → valid (JStr s)
| valid_arr items : Forall valid items → valid (JArr items)
| valid_obj members :
    Forall (λ kv, valid_str kv.1 ∧ valid kv.2) members →
    valid (JObj members).

(** No high surrogate is followed at once by a low surrogate: the case
    of every text in well-formed Unicode. *)
Fixpoint pair_free (s : str) : Prop :=
  match s with
  | [] => True
  | h :: s' =>
      match s' with
      | l :: _ => (is_high h && is_low l = false) ∧ pair_free s'
      | [] => True
      end
  end.

(** What may follow a number: anything but a digit. *)
Definition closes (rest : str) : Prop :=
  match rest with
  | [] => True
  | c :: _ => is_digit c = false
  end.

(** A text that begins with a character that is no white space and
    closes neither a list nor a dictionary. *)
Definition opens (s : str) : Prop :=
  match s with
  | [] => False
  | c :: _ =>
      is_ws c = false ∧ is_char "]" c = false ∧ is_char "}" c = false
  end.

(** What follows the escape of a high surrogate without being joined to
    it: no escape of a low surrogate. *)
Definition no_low_ahead (tail : str) : Prop :=
  match tail with
  | b :: u :: rest3 =>
      (b =? backslash)%N && is_char "u" u = true →
      match rest3 with
      | l1 :: l2 :: l3 :: l4 :: _ =>
          ∃ uni2, hex4 l1 l2 l3 l4 = Some uni2 ∧ is_low uni2 = false
      | _ => False
      end
  | _ => True
  end.

(** Decoding the text of a value gives the value as it is read back,
    whatever follows, when the fuel covers the text. *)
Definition decodes (v : value) : Prop :=
  ∀ level fuel rest,
    closes rest →
    (length (encode level v) ≤ fuel)%nat →
    scan_once fuel (encode level v ++ rest) = Some (reread v, rest).

End Json.

(** Induction on a value, with the hypothesis for every item of a list
    and every value of a dictionary. *)
Fixpoint value_forall_ind (P : Json.value → Prop)
    (Hnull : P Json.JNull)
    (Hbool : ∀ b, P (Json.JBool b))
    (Hint : ∀ z, P (Json.JInt z))
    (Hstr : ∀ s, P (Json.JStr s))
    (Harr : ∀ items, Forall P items → P (Json.JArr items))
    (Hobj : ∀ members, Forall (λ kv, P kv.2) members → P (Json.JObj members))
    (v : Json.value) : P v :=
  match v with
  | Json.JNull => Hnull
  | Json.JBool b => Hbool b
  | Json.JInt z => Hint z
  | Json.JStr s => Hstr s
  | Json.JArr items =>
      Harr items
        ((fix each (l : list Json.value) : Forall P l :=
            match l with
            | [] => List.Forall_nil P
            | x :: l' =>
                @List.Forall_cons _ P x l'
                  (value_forall_ind P Hnull Hbool Hint Hstr Harr Hobj x) (each l')
            end) items)
  | Json.JObj members =>
      Hobj members
        ((fix each (l : list (str * Json.value)) : Forall (λ kv, P kv.2) l :=
            match l with
            | [] => List.Forall_nil _
            | kv :: l' =>
                @List.Forall_cons _ (λ kv, P kv.2) kv l'
                  (value_forall_ind P Hnull Hbool Hint Hstr Harr Hobj kv.2) (each l')
            end) members)
  end.

(** ** The result writer *)

(** [time.localtime()]: the wall-clock time as calendar fields. *)
Record struct_time : Type := mkTime {
  tm_year : Z;
  tm_mon : Z;
  tm_mday : Z;
  tm_hour : Z;
  tm_min : Z;
  tm_sec : Z
}.

(** What can go wrong while the file is written: [open] fails, or the
    disk takes [written] characters of the text and then fails. *)
Inductive Fault : Type :=
| NoFault
| OpenFails
| WriteFails (written : nat).

Module Writer.

(** [%m], [%d], [%H], [%M], [%S]: two digits, zero-padded. *)
Definition two_digits (n : Z) : str :=
  if ((0 <=? n) && (n <? 10))%Z then ord "0" :: Json.encode_int n
  else Json.encode_int n.

(** [time.strftime('%Y-%m-%d %H:%M:%S')] *)
Definition strftime (t : struct_time) : str :=
  Json.encode_int (tm_year t) ++ py "-" ++ two_digits (tm_mon t) ++ py "-"
  ++ two_digits (tm_mday t) ++ py " " ++ two_digits (tm_hour t) ++ py ":"
  ++ two_digits (tm_min t) ++ py ":" ++ two_digits (tm_sec t).

(** A calendar time of a year with four digits. *)
Definition valid_time (t : struct_time) : Prop :=
  (1000 ≤ tm_year t ≤ 9999 ∧ 1 ≤ tm_mon t ≤ 12 ∧ 1 ≤ tm_mday t ≤ 31
   ∧ 0 ≤ tm_hour t ≤ 23 ∧ 0 ≤ tm_min t ≤ 59 ∧ 0 ≤ tm_sec t ≤ 61)%Z.

Definition ascii_letter (c : N) : bool :=
  PyStr.between 65 90 c || PyStr.between 97 122 c.

(** A text has the shape of a pattern when it has a digit where the
    pattern has a letter and the character of the pattern elsewhere. *)
Fixpoint has_shape (pattern s : str) : bool :=
  match pattern, s with
  | [], [] => true
  | p :: pattern', c :: s' =>
      (if ascii_letter p then Json.is_digit c else (p =? c)%N)
      && has_shape pattern' s'
  | _, _ => false
  end.

Definition date_shape : str := "YYYY-MM-DD HH:MM:SS".

(** A record as the dictionary it is in the program. *)
Definition record_json (r : PageRecord) : Json.value :=
  Json.JObj
    [(py "url", Json.JStr (url r));
     (py "title", Json.JStr (title r));
     (py "text_content", Json.JArr (map Json.JStr (text_content r)));
     (py "code_blocks", Json.JArr (map Json.JStr (code_blocks r)))].

(** The dictionary of lines 157-162. *)
Definition run_archive (index_url : str) (now : struct_time) (self : Scraper)
  : Json.value :=
  Json.JObj
    [(py "base_url", Json.JStr index_url);
     (py "total_keywords", Json.JInt (Z.of_nat (length (results self))));
     (py "scraped_date", Json.JStr (strftime now));
     (py "results", Json.JArr (map record_json (results self)))].

(** A number written with exactly two, or exactly four, digits. *)
Definition two_wide (s : str) : bool :=
  match s with
  | [a; b] => Json.is_digit a && Json.is_digit b
  | _ => false
  end.

Definition four_wide (s : str) : bool :=
  match s with
  | [a; b; c; d] =>
      Json.is_digit a && Json.is_digit b && Json.is_digit c && Json.is_digit d
  | _ => false
  end.

(** A record as it is read back from the file. *)
Definition reread_record (r : PageRecord) : PageRecord :=
  mkPageRecord (Json.join_pairs (url r)) (Json.join_pairs (title r))
    (map Json.join_pairs (text_content r)) (map Json.join_pairs (code_blocks r)).

(** The strings of a record. *)
Definition record_strings (r : PageRecord) : list str :=
  url r :: title r :: text_content r ++ code_blocks r.

Definition valid_record (r : PageRecord) : Prop :=
  Forall Json.valid_str (record_strings r).

Definition pair_free_record (r : PageRecord) : Prop :=
  Forall Json.pair_free (record_strings r).

(** [save_results]: [open(..., 'w')] empties the file or creates it,
    then [json.dump] writes the text, which is plain ASCII; a failure
    leaves what was written and raises. *)
Definition save_results (index_url output_file : str) (now : struct_time)
    (fault : Fault) (self : Scraper) (disk : gmap str str)
  : gmap str str * Try unit :=
  let text := Json.dumps (run_archive index_url now self) in
  match fault with
  | OpenFails => (disk, Raises OSError)
  | WriteFails written =>
      if (written <? length text)%nat
      then (<[output_file := take written text]> disk, Raises OSError)
      else (<[output_file := text]> disk, Returns tt)
  | NoFault => (<[output_file := text]> disk, Returns tt)
  end.

End Writer.

(** ** Concrete pages and a concrete write *)

Module Scenario.

Definition output_file : str := "vfp_keywords_documentation.json".

Definition now : struct_time := mkTime 2024 3 7 9 5 0.

(** The session after the crawl of [Site.small]. *)
Definition crawled : Scraper := Site.run Site.small Site.index.

(** An archive of an earlier run is in place. *)
Definition disk : gmap str str := {[ output_file := py "{}" ]}.

Definition text : str :=
  Json.dumps (Writer.run_archive Site.index now crawled).

(** A keyword page whose example is a [code] inside a [pre]. *)
Definition code_tag : Bs4.Element :=
  Bs4.mkElement "pre" "code" ∅ [NavigableString "? ABS(-5)"].

Definition pre_tag : Bs4.Element :=
  Bs4.mkElement "body" "pre" ∅ [Bs4.node_of code_tag].

Definition body_tag : Bs4.Element :=
  Bs4.mkElement "html" "body" ∅
    [Tag "h1" ∅ [NavigableString "ABS()"]; Bs4.node_of pre_tag].

Definition example_page : Soup := [Tag "html" ∅ [Bs4.node_of body_tag]].

(** The text the parser builds from the two character references
    [&#xD83D;&#xDE00;]: one [chr] per reference. *)
Definition two_surrogates : str := [55357; 56832]%N.

(** A site whose keyword page has that text in a paragraph, and the
    session after its crawl. *)
Definition emoji_page : Reply :=
  Site.page "Smile" [Tag "p" ∅ [NavigableString two_surrogates]].

Definition emoji_site : list (str * Reply) :=
  [(Site.index, Site.index_page);
   (py "https://h/section4/a.html", Site.letter_a_page);
   (py "https://h/section4/abc.html", emoji_page)].

Definition emoji_session : Scraper := Site.run emoji_site Site.index.

End Scenario.

(** ** The constructor and [run] *)

(** [posixpath.dirname] *)
Module Posixpath.

Definition sep : N := 47.

(** [p[:p.rfind(sep) + 1]]: the path up to its last separator, which
    is included; nothing when the path has no separator. *)
Fixpoint upto_last_sep (p : str) : str :=
  match p with
  | [] => []
  | c :: p' =>
      match upto_last_sep p' with
      | [] => if (c =? sep)%N then [c] else []
      | head => c :: head
      end
  end.

(** [head.rstrip(sep)] *)
Fixpoint rstrip_sep (s : str) : str :=
  match s with
  | [] => []
  | c :: s' =>
      match rstrip_sep s' with
      | [] => if (c =? sep)%N then [] else [c]
      | r => c :: r
      end
  end.

(** [head != sep * len(head)] *)
Definition only_seps (head : str) : bool := forallb (λ c, (c =? sep)%N) head.

Definition dirname (p : str) : str :=
  let head := upto_last_sep p in
  if PyStr.truthy head && negb (only_seps head) then rstrip_sep head
  else head.

End Posixpath.

(** A call that changes the file system. *)
Inductive OsCall : Type :=
| Makedirs (name : str).

Module Program.

(** [__init__], lines 10-19: the new session and the calls made to
    create the output directory; [path_exists] is [os.path.exists] on
    the file system as it is. *)
Definition init (path_exists : str → bool) (output_file : str)
  : Scraper * list OsCall :=
  let output_dir := Posixpath.dirname output_file in
  (Crawler.init,
   if PyStr.truthy output_dir && negb (path_exists output_dir)
   then [Makedirs output_dir]
   else []).

(** A site whose answers depend on the URL alone. *)
Definition static_site (web : list Exchange → str → Reply) : Prop :=
  ∀ log u, web log u = web [] u.

Section Run.

Variable urljoin : str → str → str.
Variable netloc : str → str.
Variable path : str → str.
Variable is_letter : N → bool.
Variable web : list Exchange → str → Reply.

(** [run], lines 166-171: the crawl, then the write; [now] is the time
    at the write. *)
Definition run (index_url output_file : str) (now : struct_time)
    (fault : Fault) (self : Scraper) (disk : gmap str str)
  : Scraper * gmap str str * Try unit :=
  let self :=
    Crawler.scrape_alphabet_index urljoin netloc path is_letter web
      index_url self in
  let '(disk, outcome) :=
    Writer.save_results index_url output_file now fault self disk in
  (self, disk, outcome).

End Run.

End Program.

(** A character of a text in ASCII: a line feed or a printable
    character. *)
Definition plain (c : N) : bool := (c =? 10)%N || PyStr.between 32 126 c.

(** More concrete pages. *)
Module Pages.

(** A list item that holds a paragraph. *)
Definition para_tag : Bs4.Element :=
  Bs4.mkElement "li" "p" ∅ [NavigableString "Returns a number"].

Definition item_tag : Bs4.Element :=
  Bs4.mkElement "ul" "li" ∅ [Bs4.node_of para_tag].

Definition list_body : Bs4.Element :=
  Bs4.mkElement "html" "body" ∅ [Tag "ul" ∅ [Bs4.node_of item_tag]].

Definition list_page : Soup := [Tag "html" ∅ [Bs4.node_of list_body]].

(** A paragraph that holds a [code]. *)
Definition inline_code : Bs4.Element :=
  Bs4.mkElement "p" "code" ∅ [NavigableString "ABS()"].

Definition code_para : Bs4.Element :=
  Bs4.mkElement "body" "p" ∅
    [NavigableString "Use "; Bs4.node_of inline_code;
     NavigableString " for the absolute value."].

Definition code_body : Bs4.Element :=
  Bs4.mkElement "html" "body" ∅ [Bs4.node_of code_para].

Definition code_page : Soup := [Tag "html" ∅ [Bs4.node_of code_body]].

(** The index links twice to the letter [A]. *)
Definition twice : list (str * Reply) :=
  [(Site.index,
    Site.page "Index"
      [Site.link "/section4/a.html" "A"; Site.link "/section4/a.html" "A"]);
   (py "https://h/section4/a.html", Site.letter_a_page);
   (py "https://h/section4/abc.html", Site.abs_page)].

(** The session after the first of the two letter pages. *)
Definition after_first : Scraper :=
  Crawler.scrape_letter_page Urllib.urljoin Urllib.netloc Urllib.path
    (Site.static twice)
    (Crawler.fetch_page (Site.static twice) FromIndex Crawler.init Site.index).1
    "A" "https://h/section4/a.html".

(** The tree of the letter page, and the record of the keyword page of
    [Site.small]. *)
Definition letter_a_soup : Soup :=
  match Site.letter_a_page with
  | Response _ (Some soup) => soup
  | _ => []
  end.

Definition abs_record : PageRecord :=
  mkPageRecord "https://h/section4/abc.html" "ABS()"
    [py "Returns absolute value"] [py "? ABS(-5)"].

End Pages.

(** * Properties *)

(** ** Stripping *)

Module StripFacts.
Import PyStr.

Lemma inked_cons_space c s : isspace c = true → inked (c :: s) = inked s.
Proof. intros H. unfold inked. rewrite filter_cons_False; [done|]. by rewrite H. Qed.

Lemma inked_cons_ink c s : isspace c = false → inked (c :: s) = c :: inked s.
Proof. intros H. unfold inked. by rewrite filter_cons_True. Qed.

Lemma inked_lstrip s : inked (lstrip s) = inked s.
Proof.
  induction s as [|c s IH]; [done|]. simpl.
  destruct (isspace c) eqn:E; [by rewrite inked_cons_space|done].
Qed.

Lemma rstrip_blank s : inked s = [] → rstrip s = [].
Proof.
  induction s as [|c s IH]; [done|].
  destruct (isspace c) eqn:E.
  - rewrite inked_cons_space by done. intros H. simpl. by rewrite IH, E.
  - by rewrite inked_cons_ink.
Qed.

Lemma inked_rstrip s : inked (rstrip s) = inked s.
Proof.
  induction s as [|c s IH]; [done|]. simpl.
  destruct (rstrip s) as [|d r] eqn:R.
  - destruct (isspace c) eqn:E.
    + rewrite inked_cons_space by done. by rewrite <- IH.
    + rewrite !(inked_cons_ink c) by done. by rewrite <- IH.
  - destruct (isspace c) eqn:E.
    + rewrite !(inked_cons_space c) by done. done.
    + rewrite !(inked_cons_ink c) by done. by rewrite IH.
Qed.

Lemma inked_strip s : inked (strip s) = inked s.
Proof. unfold strip. by rewrite inked_rstrip, inked_lstrip. Qed.

Lemma lstrip_head s : match lstrip s with [] => True | c :: _ => isspace c = false end.
Proof.
  induction s as [|c s IH]; [done|]. simpl.
  destruct (isspace c) eqn:E; [done|by rewrite E].
Qed.

Lemma rstrip_single c s : isspace c = false → inked s = [] → rstrip (c :: s) = [c].
Proof. intros Hc Hs. simpl. by rewrite (rstrip_blank s Hs), Hc. Qed.

Lemma rstrip_single_inv s c : rstrip s = [c] → isspace c = false.
Proof.
  destruct s as [|a s]; [done|]. simpl.
  destruct (rstrip s) as [|d r].
  - destruct (isspace a) eqn:E; [done|]. by intros [= <-].
  - done.
Qed.

(** [strip] gives nothing exactly for a blank text. *)
Lemma strip_nil s : strip s = [] ↔ inked s = [].
Proof.
  split.
  - intros H. by rewrite <- inked_strip, H.
  - intros H. unfold strip. apply rstrip_blank. by rewrite inked_lstrip.
Qed.

(** [strip] gives one character exactly for a text with one character
    that is no white space. *)
Lemma strip_single s c : strip s = [c] ↔ inked s = [c].
Proof.
  split.
  - intros H. rewrite <- inked_strip, H.
    apply rstrip_single_inv in H. by rewrite inked_cons_ink.
  - intros H. unfold strip. rewrite <- inked_lstrip in H.
    pose proof (lstrip_head s) as Hh.
    destruct (lstrip s) as [|a t]; [done|].
    rewrite inked_cons_ink in H by done. injection H as -> H.
    by apply rstrip_single.
Qed.

Lemma inked_concat l : inked (concat l) = concat (map inked l).
Proof.
  induction l as [|s l IH]; [done|]. simpl.
  unfold inked in *. by rewrite filter_app, IH.
Qed.

Lemma concat_truthy l :
  concat (filter (λ s, truthy s = true) l) = concat l.
Proof.
  induction l as [|s l IH]; [done|].
  destruct s as [|c s].
  - rewrite filter_cons_False by done. done.
  - rewrite filter_cons_True by done. simpl. by rewrite IH.
Qed.

Lemma stripped_blank l :
  concat (map strip l) = [] ↔ concat (map inked l) = [].
Proof.
  induction l as [|s l IH]; [done|]. simpl.
  by rewrite !app_nil, strip_nil, IH.
Qed.

Lemma app_single {A} (x y : list A) c :
  x ++ y = [c] ↔ (x = [c] ∧ y = []) ∨ (x = [] ∧ y = [c]).
Proof.
  split.
  - destruct x as [|a [|b x]]; simpl; intros H.
    + by right.
    + left. injection H as -> ->. done.
    + done.
  - intros [[-> ->]|[-> ->]]; done.
Qed.

Lemma stripped_single l c :
  concat (map strip l) = [c] ↔ concat (map inked l) = [c].
Proof.
  induction l as [|s l IH]; [done|]. simpl.
  rewrite !app_single, strip_single, strip_nil, IH, stripped_blank. done.
Qed.

(** The strings of a tag, stripped one by one and joined, are one
    character exactly when its whole text, stripped, is that
    character. *)
Lemma get_text_strip_single n c :
  Bs4.get_text_strip n = [c] ↔ strip (Bs4.get_text n) = [c].
Proof.
  unfold Bs4.get_text_strip, Bs4.stripped_strings, Bs4.get_text, join.
  by rewrite concat_truthy, stripped_single, strip_single, inked_concat.
Qed.

(** The same strings joined are nothing exactly when the whole text is
    blank. *)
Lemma get_text_strip_blank n :
  Bs4.get_text_strip n = [] ↔ strip (Bs4.get_text n) = [].
Proof.
  unfold Bs4.get_text_strip, Bs4.stripped_strings, Bs4.get_text, join.
  by rewrite concat_truthy, stripped_blank, strip_nil, inked_concat.
Qed.

End StripFacts.

(** ** The document tree *)

Module TreeFacts.
Import Bs4 Extractor.

Lemma join_app l1 l2 : PyStr.join (l1 ++ l2) = PyStr.join l1 ++ PyStr.join l2.
Proof. apply concat_app. Qed.

Lemma walk_tag parent nm at_ cs :
  walk parent (Tag nm at_ cs) = mkElement parent nm at_ cs :: descendants nm cs.
Proof. reflexivity. Qed.

Lemma descendants_cons nm c cs :
  descendants nm (c :: cs) = walk nm c ++ descendants nm cs.
Proof. reflexivity. Qed.

Lemma descendants_preorder_of nm cs e :
  Forall preorder_at cs →
  e ∈ descendants nm cs →
  ∃ l1 l3, descendants nm cs = l1 ++ e :: elements_below e ++ l3.
Proof.
  induction cs as [|c cs IHcs]; intros IH He; [inversion He|].
  apply Forall_cons in IH as [Hc Hcs].
  rewrite descendants_cons in *. apply elem_of_app in He as [He|He].
  - destruct (Hc nm e He) as (l1 & l3 & E).
    exists l1, (l3 ++ descendants nm cs). rewrite E.
    rewrite <- !app_assoc. simpl. by rewrite <- !app_assoc.
  - destruct (IHcs Hcs He) as (l1 & l3 & E).
    exists (walk nm c ++ l1), l3. rewrite E. by rewrite <- !app_assoc.
Qed.

Lemma walk_preorder n : preorder_at n.
Proof.
  induction n as [s|s|nm at_ cs IH] using Node_forall_ind; intros parent e He.
  - inversion He.
  - inversion He.
  - rewrite walk_tag in *. apply elem_of_cons in He as [->|He].
    + exists [], []. simpl. by rewrite app_nil_r.
    + destruct (descendants_preorder_of nm cs e IH He) as (l1 & l3 & E).
      exists (mkElement parent nm at_ cs :: l1), l3. by rewrite E.
Qed.

Lemma descendants_preorder nm cs e :
  e ∈ descendants nm cs →
  ∃ l1 l3, descendants nm cs = l1 ++ e :: elements_below e ++ l3.
Proof.
  apply descendants_preorder_of, Forall_forall. intros c _. apply walk_preorder.
Qed.

Lemma strings_within_children nm cs d :
  Forall strings_within cs →
  d ∈ descendants nm cs →
  ∃ a b, flat_map strings_of cs = a ++ strings_of (node_of d) ++ b.
Proof.
  induction cs as [|c cs IHcs]; intros IH Hd; [inversion Hd|].
  apply Forall_cons in IH as [Hc Hcs].
  rewrite descendants_cons in Hd. simpl. apply elem_of_app in Hd as [Hd|Hd].
  - destruct (Hc nm d Hd) as (a & b & E).
    exists a, (b ++ flat_map strings_of cs). rewrite E. by rewrite <- !app_assoc.
  - destruct (IHcs Hcs Hd) as (a & b & E).
    exists (strings_of c ++ a), b. rewrite E. by rewrite <- !app_assoc.
Qed.

Lemma walk_strings_within n : strings_within n.
Proof.
  induction n as [s|s|nm at_ cs IH] using Node_forall_ind; intros parent d Hd.
  - inversion Hd.
  - inversion Hd.
  - rewrite walk_tag in Hd. apply elem_of_cons in Hd as [->|Hd].
    + exists [], []. simpl. by rewrite app_nil_r.
    + apply (strings_within_children nm cs d IH Hd).
Qed.

Lemma text_of_within e d :
  d ∈ elements_below e → ∃ a b, text_of e = a ++ text_of d ++ b.
Proof.
  intros Hd.
  destruct (strings_within_children (tag_name e) (tag_contents e) d) as (a & b & E);
    [|done|].
  { apply Forall_forall. intros c _. apply walk_strings_within. }
  exists (PyStr.join (filter (λ s, PyStr.truthy s = true) (map PyStr.strip a))),
         (PyStr.join (filter (λ s, PyStr.truthy s = true) (map PyStr.strip b))).
  unfold text_of, get_text_strip, stripped_strings.
  change (strings_of (node_of e)) with (flat_map strings_of (tag_contents e)).
  by rewrite E, !map_app, !filter_app, !join_app.
Qed.

Lemma text_of_within_nonempty e d :
  d ∈ elements_below e → text_of d ≠ [] → text_of e ≠ [].
Proof.
  intros Hd Hne He. destruct (text_of_within e d Hd) as (a & b & E).
  rewrite He in E. symmetry in E.
  apply app_eq_nil in E as [_ E]. apply app_eq_nil in E as [E _]. done.
Qed.

Lemma truthy_nonempty s : PyStr.truthy s = true ↔ s ≠ [].
Proof. by destruct s. Qed.

(** The loops of the extractor are filters. *)
Lemma text_fold elems : ∀ acc,
  fold_left text_step elems acc
  = acc ++ map text_of
      (filter (λ e, (parent_name e ∉ nav_tags) ∧ (text_of e ≠ [])) elems).
Proof.
  induction elems as [|e elems IH]; intros acc; simpl; [by rewrite app_nil_r|].
  rewrite IH. unfold text_step at 1.
  destruct (decide (parent_name e ∈ nav_tags)) as [Hp|Hp].
  - rewrite bool_decide_eq_true_2 by done.
    rewrite filter_cons_False; [done|]. by intros [? _].
  - rewrite bool_decide_eq_false_2 by done. fold (text_of e).
    destruct (PyStr.truthy (text_of e)) eqn:Ht.
    + rewrite filter_cons_True by (split; [done|by apply truthy_nonempty]).
      simpl. by rewrite <- app_assoc.
    + rewrite filter_cons_False; [done|].
      intros [_ Hne]. apply truthy_nonempty in Hne. congruence.
Qed.

Lemma code_fold elems : ∀ acc,
  fold_left code_step elems acc
  = acc ++ map text_of (filter (λ e, text_of e ≠ []) elems).
Proof.
  induction elems as [|e elems IH]; intros acc; simpl; [by rewrite app_nil_r|].
  rewrite IH. unfold code_step at 1. fold (text_of e).
  destruct (PyStr.truthy (text_of e)) eqn:Ht.
  - rewrite filter_cons_True by (by apply truthy_nonempty).
    simpl. by rewrite <- app_assoc.
  - rewrite filter_cons_False; [done|].
    intros Hne. apply truthy_nonempty in Hne. congruence.
Qed.

Lemma name_in_elem names e : name_in names e = true ↔ tag_name e ∈ names.
Proof. unfold name_in. apply bool_decide_eq_true. Qed.

Lemma extract_body url soup b :
  Bs4.body soup = Some b →
  text_content (extract url soup)
    = map text_of (filter is_text_element (elements_below b))
  ∧ code_blocks (extract url soup)
    = map text_of (filter is_code_element (elements_below b)).
Proof.
  intros Hb. unfold extract. rewrite Hb. simpl.
  rewrite text_fold, code_fold. simpl. unfold find_all, elements_below.
  rewrite !list_filter_filter. split; f_equal; apply list_filter_iff; intros e;
    unfold is_text_element, is_code_element; rewrite name_in_elem; tauto.
Qed.

Lemma extract_no_body url soup :
  Bs4.body soup = None →
  text_content (extract url soup) = [] ∧ code_blocks (extract url soup) = [].
Proof. intros Hb. unfold extract. by rewrite Hb. Qed.

End TreeFacts.

(** C2 (amended).  With [b] the first [body] tag of the document,
    [text_content] is, in document order, the trimmed text of exactly the
    heading, paragraph and list-item tags below [b] whose parent is not a
    nav, header or footer and whose trimmed text is not empty, and
    [code_blocks] the trimmed text of every [pre] or [code] tag below [b]
    with non-empty trimmed text, whatever its parent; without a [body]
    tag both are empty.  The trimmed text of a tag is that of
    [get_text(strip=True)]: its strings, each stripped on its own,
    joined; it is empty exactly when the whole text of the tag is
    blank. *)
Theorem extracted_text_and_code (url : str) (soup : Soup) :
  match Bs4.body soup with
  | Some b =>
      text_content (Extractor.extract url soup)
        = map Extractor.text_of
            (filter Extractor.is_text_element (Extractor.elements_below b))
      ∧ code_blocks (Extractor.extract url soup)
        = map Extractor.text_of
            (filter Extractor.is_code_element (Extractor.elements_below b))
      ∧ Forall (λ e, Extractor.text_of e = []
                     ↔ PyStr.strip (Bs4.get_text (Bs4.node_of e)) = [])
          (Extractor.elements_below b)
  | None =>
      text_content (Extractor.extract url soup) = []
      ∧ code_blocks (Extractor.extract url soup) = []
  end.
Proof.
  destruct (Bs4.body soup) as [b|] eqn:Hb.
  - destruct (TreeFacts.extract_body url soup b Hb) as [Ht Hc].
    split; [done|]. split; [done|].
    apply Forall_forall. intros e _. apply StripFacts.get_text_strip_blank.
  - by apply TreeFacts.extract_no_body.
Qed.

(** The strings of a tag are stripped one by one: the space between two
    of them is lost, which trimming the whole text would keep. *)
Lemma strings_stripped_one_by_one :
  let p :=
    Bs4.mkElement "body" "p" ∅
      [NavigableString "Hello "; Tag "b" ∅ [NavigableString "world"]] in
  Extractor.text_of p = "Helloworld"
  ∧ PyStr.strip (Bs4.get_text (Bs4.node_of p)) = "Hello world".
Proof. split; reflexivity. Qed.

(** C2, as stated for every tag of the document, fails: a paragraph of a
    document without [body] tag is not extracted. *)
Lemma paragraph_outside_body_dropped :
  let soup := [Tag "p" ∅ [NavigableString "Returns absolute value"]] in
  text_content (Extractor.extract "https://h/section4/abc.html" soup)
  ≠ map Extractor.text_of
      (filter Extractor.is_text_element (Extractor.document_elements soup)).
Proof. vm_compute. discriminate. Qed.



(** ** More on the extractor *)

Module TrimFacts.
Import PyStr.

Lemma lstrip_inked c s : isspace c = false → lstrip (c :: s) = c :: s.
Proof. intros H. simpl. by rewrite H. Qed.

Lemma rstrip_head s :
  rstrip s = [] ∨ ∃ c r t, s = c :: t ∧ rstrip s = c :: r.
Proof.
  destruct s as [|c s]; [by left|]. simpl.
  destruct (rstrip s) as [|d r].
  - destruct (isspace c); [by left|right; by exists c, [], s].
  - right. by exists c, (d :: r), s.
Qed.

Lemma rstrip_last s :
  rstrip s = [] ∨ ∃ c, last (rstrip s) = Some c ∧ isspace c = false.
Proof.
  induction s as [|a s IH]; [by left|]. simpl.
  destruct (rstrip s) as [|d r] eqn:R.
  - destruct (isspace a) eqn:E; [by left|right; by exists a].
  - right. destruct IH as [IH|(c & Hc & Hs)]; [done|].
    exists c. split; [|done]. by rewrite last_cons, Hc.
Qed.

Lemma rstrip_fixed s c :
  last s = Some c → isspace c = false → rstrip s = s.
Proof.
  induction s as [|a s IH]; [done|]. intros Hl Hc. simpl.
  destruct s as [|b s].
  - injection Hl as ->. by rewrite Hc.
  - rewrite last_cons in Hl. destruct (last (b :: s)) as [x|] eqn:Lx;
      [|by apply last_None in Lx].
    rewrite IH by congruence. done.
Qed.

(** A text with a first and a last character that are no white space
    is left as it is. *)
Lemma strip_fixed a s c :
  isspace a = false → last (a :: s) = Some c → isspace c = false →
  strip (a :: s) = a :: s.
Proof.
  intros Ha Hl Hc. unfold strip. rewrite lstrip_inked by done.
  by apply (rstrip_fixed _ c).
Qed.

(** What [strip] returns is empty, or begins and ends with a character
    that is no white space. *)
Lemma strip_edges s :
  strip s = []
  ∨ ∃ a t c, strip s = a :: t ∧ isspace a = false
             ∧ last (a :: t) = Some c ∧ isspace c = false.
Proof.
  unfold strip. pose proof (StripFacts.lstrip_head s) as Hh.
  destruct (rstrip_head (lstrip s)) as [E|(a & r & t & Es & Er)]; [by left|].
  right. rewrite Es in Hh.
  destruct (rstrip_last (lstrip s)) as [E|(c & Hl & Hc)]; [congruence|].
  exists a, r, c. by rewrite <- Er.
Qed.

Lemma strip_strip s : strip (strip s) = strip s.
Proof.
  destruct (strip_edges s) as [->|(a & t & c & -> & Ha & Hl & Hc)]; [done|].
  by apply (strip_fixed a t c).
Qed.

(** Stripped strings that are not empty, joined: the text is empty, or
    begins and ends with a character that is no white space. *)
Lemma join_stripped_edges l :
  let text := join (filter (λ s, truthy s = true) (map strip l)) in
  text = []
  ∨ ∃ a t c, text = a :: t ∧ isspace a = false
             ∧ last (a :: t) = Some c ∧ isspace c = false.
Proof.
  induction l as [|s l IH]; [by left|]. simpl in *.
  destruct (strip_edges s) as [E|(a & t & c & E & Ha & Hl & Hc)].
  - rewrite E. rewrite filter_cons_False by done. apply IH.
  - rewrite E. rewrite filter_cons_True by done. right.
    change (join ((a :: t) :: ?x)) with ((a :: t) ++ join x).
    destruct IH as [->|(a' & t' & c' & -> & Ha' & Hl' & Hc')].
    + exists a, t, c. by rewrite app_nil_r.
    + exists a, (t ++ a' :: t'), c'. split; [done|]. split; [done|].
      split; [|done]. rewrite app_comm_cons, last_app, Hl'. done.
Qed.

(** The text of a tag, as [get_text(strip=True)] returns it, has no
    white space at its ends. *)
Lemma get_text_strip_trimmed n :
  strip (Bs4.get_text_strip n) = Bs4.get_text_strip n.
Proof.
  unfold Bs4.get_text_strip, Bs4.stripped_strings.
  destruct (join_stripped_edges (Bs4.strings_of n))
    as [->|(a & t & c & -> & Ha & Hl & Hc)]; [done|].
  by apply (strip_fixed a t c).
Qed.

End TrimFacts.

(** X1.  Every entry of [text_content] and of [code_blocks] is a text
    that is not empty and has no white space at its ends, and the title
    has none at its ends either, whatever the document. *)
Theorem extracted_entries_trimmed (url : str) (soup : Soup) :
  Forall (λ t, t ≠ [] ∧ PyStr.strip t = t)
    (text_content (Extractor.extract url soup))
  ∧ Forall (λ t, t ≠ [] ∧ PyStr.strip t = t)
      (code_blocks (Extractor.extract url soup))
  ∧ PyStr.strip (title (Extractor.extract url soup))
    = title (Extractor.extract url soup).
Proof.
  assert (∀ P (l : list Bs4.Element) `{∀ e, Decision (P e)},
            (∀ e, P e → Extractor.text_of e ≠ []) →
            Forall (λ t, t ≠ [] ∧ PyStr.strip t = t)
              (map Extractor.text_of (filter P l))) as Hall.
  { intros P l ? HP. apply Forall_fmap, Forall_forall. intros e He.
    apply list_elem_of_filter in He as [He _]. split; [by apply HP|].
    apply TrimFacts.get_text_strip_trimmed. }
  assert (PyStr.strip (Extractor.page_title soup) = Extractor.page_title soup)
    as Ht.
  { unfold Extractor.page_title. destruct (Bs4.title soup); [|done].
    apply TrimFacts.strip_strip. }
  destruct (Bs4.body soup) as [b|] eqn:Hb.
  - destruct (TreeFacts.extract_body url soup b Hb) as [-> ->].
    split; [apply Hall; by intros e (_ & _ & ?)|].
    split; [apply Hall; by intros e (_ & ?)|].
    unfold Extractor.extract. by rewrite Hb.
  - destruct (TreeFacts.extract_no_body url soup Hb) as [-> ->].
    split; [constructor|]. split; [constructor|].
    unfold Extractor.extract. by rewrite Hb.
Qed.

Module NestFacts.
Import Bs4 Extractor.

(** Two tags kept by a filter, one below the other, give two entries,
    the one of the outer tag first. *)
Lemma nested_entries (P : Element → Prop) `{∀ e, Decision (P e)}
    (b outer inner : Element) :
  outer ∈ elements_below b →
  inner ∈ elements_below outer →
  P outer → P inner →
  ∃ i j,
    (i < j)%nat
    ∧ map text_of (filter P (elements_below b)) !! i = Some (text_of outer)
    ∧ map text_of (filter P (elements_below b)) !! j = Some (text_of inner).
Proof.
  intros Houter Hinner Pouter Pinner.
  destruct (TreeFacts.descendants_preorder _ _ _ Houter) as (l1 & l3 & E).
  apply list_elem_of_split in Hinner as (m1 & m2 & Em).
  set (f1 := filter P l1). set (f2 := filter P m1).
  assert (map text_of (filter P (elements_below b))
          = map text_of f1 ++ text_of outer
              :: map text_of f2 ++ text_of inner
              :: map text_of (filter P (m2 ++ l3))) as ->.
  { unfold elements_below at 1. rewrite E, Em.
    rewrite filter_app, filter_cons_True by done.
    rewrite <- app_assoc, <- app_comm_cons.
    rewrite filter_app, filter_cons_True by done.
    rewrite map_app. simpl. by rewrite map_app. }
  exists (length f1), (length f1 + S (length f2))%nat.
  split; [lia|]. split.
  - rewrite lookup_app_r by (rewrite length_map; lia).
    by rewrite length_map, Nat.sub_diag.
  - rewrite lookup_app_r by (rewrite length_map; lia).
    rewrite length_map.
    replace (length f1 + S (length f2) - length f1)%nat with (S (length f2)) by lia.
    simpl. rewrite lookup_app_r by (rewrite length_map; lia).
    by rewrite length_map, Nat.sub_diag.
Qed.

End NestFacts.

(** X2.  A heading, paragraph or list item below the [body] that holds
    another one with non-empty text, neither of them directly under a
    nav, header or footer, gives two entries of [text_content]: the text
    of the outer tag, which holds the text of the inner one as a run of
    characters, and later the text of the inner tag again. *)
Theorem nested_text_emitted_twice (url : str) (soup : Soup)
    (b outer inner : Bs4.Element) :
  Bs4.body soup = Some b →
  outer ∈ Extractor.elements_below b →
  inner ∈ Extractor.elements_below outer →
  Bs4.tag_name outer ∈ Extractor.text_tags →
  Bs4.parent_name outer ∉ Extractor.nav_tags →
  Bs4.tag_name inner ∈ Extractor.text_tags →
  Bs4.parent_name inner ∉ Extractor.nav_tags →
  Extractor.text_of inner ≠ [] →
  ∃ i j,
    (i < j)%nat
    ∧ text_content (Extractor.extract url soup) !! i
      = Some (Extractor.text_of outer)
    ∧ text_content (Extractor.extract url soup) !! j
      = Some (Extractor.text_of inner)
    ∧ ∃ before after,
        Extractor.text_of outer = before ++ Extractor.text_of inner ++ after.
Proof.
  intros Hb Houter Hinner To Po Ti Pi Hne.
  destruct (TreeFacts.extract_body url soup b Hb) as [-> _].
  destruct (NestFacts.nested_entries Extractor.is_text_element b outer inner)
    as (i & j & Hij & Hi & Hj); try done.
  - split; [done|]. split; [done|].
    by apply (TreeFacts.text_of_within_nonempty outer inner).
  - exists i, j. repeat split; try done.
    by apply TreeFacts.text_of_within.
Qed.

(** X15.  A [pre] or [code] tag inside a heading, paragraph or list
    item that is not directly under a nav, header or footer is written
    in both lists: its text is an entry of [code_blocks], and it is
    again a run of characters of the entry of [text_content] for the
    tag around it. *)
Theorem inline_code_in_both_lists (url : str) (soup : Soup)
    (b outer code : Bs4.Element) :
  Bs4.body soup = Some b →
  outer ∈ Extractor.elements_below b →
  code ∈ Extractor.elements_below outer →
  Bs4.tag_name outer ∈ Extractor.text_tags →
  Bs4.parent_name outer ∉ Extractor.nav_tags →
  Bs4.tag_name code ∈ Extractor.code_tags →
  Extractor.text_of code ≠ [] →
  Extractor.text_of code ∈ code_blocks (Extractor.extract url soup)
  ∧ Extractor.text_of outer ∈ text_content (Extractor.extract url soup)
  ∧ ∃ before after,
      Extractor.text_of outer = before ++ Extractor.text_of code ++ after.
Proof.
  intros Hb Houter Hcode To Po Tc Hne.
  destruct (TreeFacts.extract_body url soup b Hb) as [-> ->].
  destruct (TreeFacts.descendants_preorder _ _ _ Houter) as (l1 & l3 & E).
  assert (code ∈ Extractor.elements_below b) as Hcode'.
  { unfold Extractor.elements_below at 1. rewrite E. set_solver. }
  split; [|split].
  - apply list_elem_of_fmap. exists code. split; [done|].
    by apply list_elem_of_filter.
  - apply list_elem_of_fmap. exists outer. split; [done|].
    apply list_elem_of_filter. split; [|done].
    split; [done|]. split; [done|].
    by apply (TreeFacts.text_of_within_nonempty outer code).
  - by apply TreeFacts.text_of_within.
Qed.
(** ** Encoding and decoding JSON *)

Module JsonFacts.
Import Json.

(** *** Hexadecimal escapes *)

Lemma hex_value_char k : (k < 16)%N → hex_value (hex_char k) = Some k.
Proof.
  intros H. unfold hex_char, hex_value, PyStr.between.
  destruct (k <? 10)%N eqn:E.
  - apply N.ltb_lt in E.
    replace ((48 <=? 48 + k) && (48 + k <=? 57))%N with true
      by (symmetry; apply andb_true_iff; split; apply N.leb_le; lia).
    f_equal. lia.
  - apply N.ltb_ge in E.
    replace ((48 <=? 87 + k) && (87 + k <=? 57))%N with false
      by (symmetry; apply andb_false_iff; right; apply N.leb_gt; lia).
    replace ((97 <=? 87 + k) && (87 + k <=? 102))%N with true
      by (symmetry; apply andb_true_iff; split; apply N.leb_le; lia).
    f_equal. lia.
Qed.

Lemma hex4_digits n :
  (n < 65536)%N →
  hex4 (hex_char (n / 4096 mod 16)) (hex_char (n / 256 mod 16))
       (hex_char (n / 16 mod 16)) (hex_char (n mod 16)) = Some n.
Proof.
  intros H. unfold hex4.
  rewrite !hex_value_char by (apply N.mod_lt; lia).
  f_equal.
  assert (n / 4096 mod 16 = n / 4096)%N as ->.
  { apply N.mod_small. apply N.Div0.div_lt_upper_bound. lia. }
  pose proof (N.div_mod n 16 ltac:(lia)) as H0.
  pose proof (N.div_mod (n / 16) 16 ltac:(lia)) as H1.
  pose proof (N.div_mod (n / 256) 16 ltac:(lia)) as H2.
  rewrite (N.Div0.div_div n 16 16) in H1.
  rewrite (N.Div0.div_div n 256 16) in H2.
  change (16 * 16)%N with 256%N in H1.
  change (256 * 16)%N with 4096%N in H2.
  pose proof (N.mod_lt n 16 ltac:(lia)).
  pose proof (N.mod_lt (n / 16) 16 ltac:(lia)).
  pose proof (N.mod_lt (n / 256) 16 ltac:(lia)).
  lia.
Qed.

Lemma u_escape_app n tail :
  u_escape n ++ tail
  = backslash :: ord "u"
    :: hex_char (n / 4096 mod 16) :: hex_char (n / 256 mod 16)
    :: hex_char (n / 16 mod 16) :: hex_char (n mod 16) :: tail.
Proof. reflexivity. Qed.

(** An escape that is not the escape of a high surrogate is read by
    itself. *)
Lemma scan_u_plain c tail :
  (c < 65536)%N → is_high c = false →
  scanstring (u_escape c ++ tail) = push c <$> scanstring tail.
Proof.
  intros Hc Hh. rewrite u_escape_app. cbn [scanstring].
  change (backslash =? dquote)%N with false.
  change (backslash =? backslash)%N with true.
  change (is_char "u" (ord "u")) with true. cbv iota.
  rewrite hex4_digits by done. rewrite Hh.
  by destruct tail as [|b [|u rest3]].
Qed.

(** The escape of a high surrogate is read by itself when no escape of
    a low surrogate follows. *)
Lemma scan_u_high c tail :
  (c < 65536)%N → no_low_ahead tail →
  scanstring (u_escape c ++ tail) = push c <$> scanstring tail.
Proof.
  intros Hc Hn. rewrite u_escape_app. cbn [scanstring].
  change (backslash =? dquote)%N with false.
  change (backslash =? backslash)%N with true.
  change (is_char "u" (ord "u")) with true. cbv iota.
  rewrite hex4_digits by done.
  destruct tail as [|b [|u rest3]]; try done.
  destruct (is_high c); [|done]. simpl in Hn |- *.
  destruct ((b =? backslash)%N && is_char "u" u) eqn:E; [|done].
  specialize (Hn eq_refl).
  destruct rest3 as [|l1 [|l2 [|l3 [|l4 rest4]]]]; try done.
  destruct Hn as (uni2 & -> & ->). done.
Qed.

(** The escapes of a high and of a low surrogate are read as one code
    point. *)
Lemma scan_u_pair h l tail :
  (h < 65536)%N → (l < 65536)%N → is_high h = true → is_low l = true →
  scanstring (u_escape h ++ u_escape l ++ tail)
  = push (pair h l) <$> scanstring tail.
Proof.
  intros Hh Hl Hhi Hlo. rewrite (u_escape_app h), (u_escape_app l).
  cbn [scanstring].
  change (backslash =? dquote)%N with false.
  change (backslash =? backslash)%N with true.
  change (is_char "u" (ord "u")) with true. cbv iota.
  rewrite !hex4_digits by done. rewrite Hhi. simpl andb. cbv iota.
  by rewrite Hlo.
Qed.

(** *** Surrogate pairs *)

Lemma lor_low a y k : (y < 2 ^ k)%N → N.lor (a * 2 ^ k) y = (a * 2 ^ k + y)%N.
Proof.
  intros Hy.
  assert (N.land (a * 2 ^ k) y = 0%N) as Hl.
  { apply N.bits_inj. intros m. rewrite N.land_spec, N.bits_0.
    destruct (N.lt_ge_cases m k) as [Hm|Hm].
    - by rewrite N.mul_pow2_bits_low.
    - destruct (N.eq_dec y 0%N) as [->|Hy0]; [by rewrite N.bits_0, andb_false_r|].
      rewrite (N.bits_above_log2 y m), andb_false_r; [done|].
      apply N.log2_lt_pow2; [lia|].
      apply N.lt_le_trans with (2 ^ k)%N; [done|].
      apply N.pow_le_mono_r; lia. }
  by rewrite <- N.lxor_lor, <- N.add_nocarry_lxor.
Qed.

Lemma surrogates_of c :
  (65536 ≤ c < 1114112)%N →
  high_of c = (55296 + (c - 65536) / 1024)%N
  ∧ low_of c = (56320 + (c - 65536) mod 1024)%N.
Proof.
  intros Hc. unfold high_of, low_of.
  change 1023%N with (N.ones 10). rewrite !N.land_ones, N.shiftr_div_pow2.
  change (2 ^ 10)%N with 1024%N.
  assert ((c - 65536) / 1024 < 1024)%N as Hq
    by (apply N.Div0.div_lt_upper_bound; lia).
  pose proof (N.mod_lt (c - 65536) 1024 ltac:(lia)) as Hr.
  rewrite (N.mod_small _ _ Hq).
  change 55296%N with (54 * 2 ^ 10)%N. change 56320%N with (55 * 2 ^ 10)%N.
  by rewrite !lor_low by (change (2 ^ 10)%N with 1024%N; lia).
Qed.

Lemma pair_of_surrogates c :
  (65536 ≤ c < 1114112)%N →
  (high_of c < 65536)%N ∧ (low_of c < 65536)%N
  ∧ is_high (high_of c) = true ∧ is_low (low_of c) = true
  ∧ pair (high_of c) (low_of c) = c.
Proof.
  intros Hc. destruct (surrogates_of c Hc) as [-> ->].
  assert ((c - 65536) / 1024 < 1024)%N as Hq
    by (apply N.Div0.div_lt_upper_bound; lia).
  pose proof (N.mod_lt (c - 65536) 1024 ltac:(lia)) as Hr.
  pose proof (N.div_mod (c - 65536) 1024 ltac:(lia)) as Hd.
  set (q := ((c - 65536) / 1024)%N) in *.
  set (r := ((c - 65536) mod 1024)%N) in *.
  clearbody q r.
  split; [lia|]. split; [lia|]. split; [|split].
  - unfold is_high, PyStr.between. apply andb_true_iff.
    split; apply N.leb_le; lia.
  - unfold is_low, PyStr.between. apply andb_true_iff.
    split; apply N.leb_le; lia.
  - unfold pair. rewrite N.shiftl_mul_pow2.
    replace (55296 + q - 55296)%N with q by lia.
    replace (56320 + r - 56320)%N with r by lia.
    rewrite lor_low by (change (2 ^ 10)%N with 1024%N; lia).
    change (2 ^ 10)%N with 1024%N. lia.
Qed.

(** *** Strings *)

Lemma between_true lo hi c : PyStr.between lo hi c = true ↔ (lo ≤ c ≤ hi)%N.
Proof.
  unfold PyStr.between. rewrite andb_true_iff, !N.leb_le. tauto.
Qed.

Lemma between_false lo hi c : PyStr.between lo hi c = false ↔ (c < lo ∨ hi < c)%N.
Proof.
  unfold PyStr.between. rewrite andb_false_iff, !N.leb_gt. tauto.
Qed.

Ltac decide_tests :=
  repeat match goal with
    | |- context [(?a =? ?b)%N] =>
        destruct (N.eqb_spec a b); [try lia|]
    | |- context [(?a <? ?b)%N] =>
        destruct (N.ltb_spec a b); [|try lia]
    | |- context [PyStr.between ?lo ?hi ?c] =>
        let E := fresh "E" in
        destruct (PyStr.between lo hi c) eqn:E;
        [apply between_true in E; try lia|apply between_false in E]
    end.

(** The escape of a surrogate is its [\uXXXX] form. *)
Lemma escape_surrogate c : (55296 ≤ c ≤ 57343)%N → escape c = u_escape c.
Proof.
  intros Hc. unfold escape. decide_tests; try done; lia.
Qed.

(** A code point that is no high surrogate is read back from its
    escape, whatever follows. *)
Lemma scan_escape_plain c tail :
  (c < 1114112)%N → is_high c = false →
  scanstring (escape c ++ tail) = push c <$> scanstring tail.
Proof.
  intros Hc Hh. unfold escape.
  destruct (N.eqb_spec c 34) as [->|?]; [done|].
  destruct (N.eqb_spec c 92) as [->|?]; [done|].
  destruct (N.eqb_spec c 10) as [->|?]; [done|].
  destruct (N.eqb_spec c 13) as [->|?]; [done|].
  destruct (N.eqb_spec c 9) as [->|?]; [done|].
  destruct (N.eqb_spec c 8) as [->|?]; [done|].
  destruct (N.eqb_spec c 12) as [->|?]; [done|].
  destruct (PyStr.between 32 126 c) eqn:E.
  - apply between_true in E. cbn [app scanstring].
    unfold dquote, backslash.
    destruct (N.eqb_spec c 34); [done|]. destruct (N.eqb_spec c 92); [done|].
    destruct (N.ltb_spec c 32); [lia|done].
  - destruct (N.ltb_spec c 65536).
    + by apply scan_u_plain.
    + destruct (pair_of_surrogates c ltac:(lia)) as (H1 & H2 & H3 & H4 & H5).
      rewrite <- app_assoc, scan_u_pair by done. by rewrite H5.
Qed.

(** A high surrogate is read back from its escape when no escape of a
    low surrogate follows. *)
Lemma scan_escape_high c tail :
  is_high c = true → no_low_ahead tail →
  scanstring (escape c ++ tail) = push c <$> scanstring tail.
Proof.
  intros Hh Hn. apply between_true in Hh.
  rewrite escape_surrogate by lia. apply scan_u_high; [lia|done].
Qed.

Lemma no_low_ahead_quote rest : no_low_ahead (dquote :: rest).
Proof. by destruct rest. Qed.

Lemma no_low_ahead_escape d tail :
  (d < 1114112)%N → is_low d = false →
  no_low_ahead (escape d ++ tail).
Proof.
  intros Hd Hl. unfold escape.
  destruct (N.eqb_spec d 34) as [->|?]; [done|].
  destruct (N.eqb_spec d 92) as [->|?]; [done|].
  destruct (N.eqb_spec d 10) as [->|?]; [done|].
  destruct (N.eqb_spec d 13) as [->|?]; [done|].
  destruct (N.eqb_spec d 9) as [->|?]; [done|].
  destruct (N.eqb_spec d 8) as [->|?]; [done|].
  destruct (N.eqb_spec d 12) as [->|?]; [done|].
  destruct (PyStr.between 32 126 d) eqn:E.
  - simpl. unfold backslash. destruct (N.eqb_spec d 92); [done|].
    by destruct tail.
  - destruct (N.ltb_spec d 65536).
    + rewrite u_escape_app. intros _. exists d. by rewrite hex4_digits.
    + destruct (pair_of_surrogates d ltac:(lia)) as (H1 & H2 & H3 & H4 & H5).
      rewrite <- app_assoc, u_escape_app. intros _.
      exists (high_of d). rewrite hex4_digits by done. split; [done|].
      apply between_true in H3. apply between_false. lia.
Qed.

Lemma join_pairs_plain h s :
  is_high h = false → join_pairs (h :: s) = h :: join_pairs s.
Proof. intros H. destruct s as [|l s]; [done|]. simpl. by rewrite H. Qed.

Lemma join_pairs_not_low h l s :
  is_low l = false → join_pairs (h :: l :: s) = h :: join_pairs (l :: s).
Proof. intros H. cbn [join_pairs]. by rewrite H, andb_false_r. Qed.

Lemma join_pairs_pair h l s :
  is_high h = true → is_low l = true →
  join_pairs (h :: l :: s) = pair h l :: join_pairs s.
Proof. intros H1 H2. cbn [join_pairs]. by rewrite H1, H2. Qed.

Lemma escape_all_cons c s : escape_all (c :: s) = escape c ++ escape_all s.
Proof. reflexivity. Qed.

(** The text of a string is read back with its surrogate pairs joined. *)
Lemma scanstring_escape_all s : ∀ rest,
  valid_str s →
  scanstring (escape_all s ++ dquote :: rest) = Some (join_pairs s, rest).
Proof.
  induction s as [s IH] using (induction_ltof1 _ (@length N)).
  unfold ltof in IH. intros rest Hv.
  destruct s as [|h s]; [done|].
  apply Forall_cons in Hv as [Hh Hv].
  rewrite escape_all_cons, <- app_assoc.
  destruct (is_high h) eqn:Eh.
  - destruct s as [|l s].
    + rewrite scan_escape_high by (done || apply no_low_ahead_quote). done.
    + apply Forall_cons in Hv as [Hl Hv].
      destruct (is_low l) eqn:El.
      * apply between_true in Eh as Eh'. apply between_true in El as El'.
        rewrite escape_all_cons, <- app_assoc.
        rewrite (escape_surrogate h), (escape_surrogate l) by lia.
        rewrite scan_u_pair by (done || lia).
        rewrite IH by (done || simpl; lia).
        by rewrite join_pairs_pair.
      * rewrite scan_escape_high; [|done|].
        -- rewrite IH; [|simpl; lia|by apply Forall_cons].
           by rewrite join_pairs_not_low.
        -- rewrite escape_all_cons, <- app_assoc.
           by apply no_low_ahead_escape.
  - rewrite scan_escape_plain by done.
    rewrite IH by (done || simpl; lia).
    by rewrite join_pairs_plain.
Qed.

(** A string free of surrogate pairs is read back unchanged. *)
Lemma join_pairs_free s : pair_free s → join_pairs s = s.
Proof.
  induction s as [|h s IH]; [done|]. destruct s as [|l s]; [done|].
  intros [H Hs]. cbn [join_pairs]. rewrite H. f_equal. by apply IH.
Qed.

Lemma encode_string_eq s rest :
  encode_string s ++ rest = dquote :: escape_all s ++ dquote :: rest.
Proof. unfold encode_string. simpl. by rewrite <- app_assoc. Qed.

(** *** Integers *)

Lemma py_app a b : py (a +:+ b) = py a ++ py b.
Proof. induction a as [|x a IH]; [done|]. simpl. by rewrite <- IH. Qed.

Lemma nzhead_no_zero d d' : nzhead d ≠ D0 d'.
Proof. induction d; simpl; try done. Qed.

Lemma to_uint_normal p : unorm (Pos.to_uint p) = Pos.to_uint p.
Proof.
  pose proof (DecimalPos.Unsigned.to_of (Pos.to_uint p)) as H.
  rewrite DecimalPos.Unsigned.of_to in H. by simpl in H.
Qed.

Lemma to_uint_head p :
  match Pos.to_uint p with
  | Nil => False
  | D0 _ => False
  | _ => True
  end.
Proof.
  pose proof (to_uint_normal p) as H.
  pose proof (DecimalPos.Unsigned.to_uint_nonzero p) as Hz.
  destruct (Pos.to_uint p) as [|d| | | | | | | | |] eqn:E; try done.
  unfold unorm in H. simpl in H.
  destruct (nzhead d) as [|d'| | | | | | | | |] eqn:En; try done.
  by apply (nzhead_no_zero d d').
Qed.

Lemma span_digits_uint d rest :
  closes rest →
  span_digits (py (NilEmpty.string_of_uint d) ++ rest)
  = (py (NilEmpty.string_of_uint d), rest).
Proof.
  intros Hc. induction d; simpl; try (by rewrite IHd).
  destruct rest as [|c rest]; [done|]. simpl in *. by rewrite Hc.
Qed.

Lemma uint_of_digits_uint d :
  uint_of_digits (py (NilEmpty.string_of_uint d)) = Some d.
Proof. induction d; simpl; rewrite ?IHd; done. Qed.

(** The first character of a positive number is a digit from 1 to 9. *)
Lemma uint_pos_first p :
  ∃ c tail,
    py (NilEmpty.string_of_uint (Pos.to_uint p)) = c :: tail
    ∧ is_digit c = true ∧ is_char "0" c = false ∧ is_char "-" c = false.
Proof.
  pose proof (to_uint_head p) as Hh.
  destruct (Pos.to_uint p) as [|d|d|d|d|d|d|d|d|d|d]; try done;
    simpl; eexists _, _; repeat split.
Qed.

Lemma scan_natural_pos p rest :
  closes rest →
  scan_natural (py (NilEmpty.string_of_uint (Pos.to_uint p)) ++ rest)
  = Some (Z.pos p, rest).
Proof.
  intros Hc.
  pose proof (span_digits_uint (Pos.to_uint p) rest Hc) as Hs.
  pose proof (uint_of_digits_uint (Pos.to_uint p)) as Hu.
  assert (Z.of_uint (Pos.to_uint p) = Z.pos p) as Hz.
  { unfold Z.of_uint. by rewrite DecimalPos.Unsigned.of_to. }
  destruct (uint_pos_first p) as (c & tail & E & Hd & H0 & _).
  rewrite E in *. rewrite <- app_comm_cons in *.
  unfold scan_natural. rewrite H0, Hd, Hs. cbv beta iota.
  rewrite Hu. simpl. by rewrite Hz.
Qed.

Lemma string_of_uint_pos p :
  NilZero.string_of_uint (Pos.to_uint p) = NilEmpty.string_of_uint (Pos.to_uint p).
Proof.
  pose proof (to_uint_head p) as Hh. by destruct (Pos.to_uint p).
Qed.

Lemma scan_int_encode z rest :
  closes rest → scan_int (encode_int z ++ rest) = Some (z, rest).
Proof.
  intros Hc. unfold encode_int. destruct z as [|p|p]; simpl.
  - done.
  - rewrite string_of_uint_pos.
    pose proof (scan_natural_pos p rest Hc) as Hn.
    destruct (uint_pos_first p) as (c & tail & E & _ & _ & Hm).
    rewrite E in *. rewrite <- app_comm_cons in *. unfold scan_int. by rewrite Hm.
  - rewrite string_of_uint_pos.
    change (is_char "-" 45) with true. cbv iota.
    by rewrite (scan_natural_pos p rest Hc).
Qed.

Lemma encode_int_first z rest :
  ∃ c tail,
    encode_int z ++ rest = c :: tail
    ∧ (is_digit c = true ∨ c = ord "-").
Proof.
  unfold encode_int. destruct z as [|p|p]; simpl.
  - eexists _, _. split; [reflexivity|by left].
  - rewrite string_of_uint_pos.
    destruct (uint_pos_first p) as (c & tail & -> & Hd & _ & _).
    eexists _, _. split; [reflexivity|by left].
  - eexists _, _. split; [reflexivity|by right].
Qed.

(** *** What a value begins with *)

Lemma skip_ws_opens s : opens s → skip_ws s = s.
Proof. destruct s as [|c s]; [done|]. simpl. by intros [-> _]. Qed.

Lemma skip_ws_spaces n s : skip_ws (replicate n (ord " ") ++ s) = skip_ws s.
Proof. induction n as [|n IH]; [done|]. simpl. apply IH. Qed.

Lemma skip_ws_newline_indent level s :
  skip_ws (newline_indent level ++ s) = skip_ws s.
Proof. unfold newline_indent. simpl. apply skip_ws_spaces. Qed.

Lemma encode_string_opens s rest : opens (encode_string s ++ rest).
Proof. by rewrite encode_string_eq. Qed.

Lemma digit_opens c : is_digit c = true ∨ c = ord "-" → opens [c].
Proof.
  intros [H| ->]; [|done]. apply between_true in H.
  unfold opens, is_ws, is_char.
  change (ord "]") with 93%N. change (ord "}") with 125%N.
  repeat split; decide_tests; done.
Qed.

Lemma encode_int_opens z rest : opens (encode_int z ++ rest).
Proof.
  destruct (encode_int_first z rest) as (c & tail & -> & H).
  by apply digit_opens in H.
Qed.

Lemma encode_opens level v rest : opens (encode level v ++ rest).
Proof.
  destruct v as [|[]|z|s|[|x items]|[|kv members]]; try done.
  apply encode_int_opens.
Qed.

Lemma encode_length level v : (1 ≤ length (encode level v))%nat.
Proof.
  pose proof (encode_opens level v []) as H.
  rewrite app_nil_r in H. destruct (encode level v); [done|simpl; lia].
Qed.

(** *** Lists *)

Lemma encode_items_more {A} (enc : A → str) sep x y l :
  encode_items enc sep (x :: y :: l)
  = enc x ++ sep ++ encode_items enc sep (y :: l).
Proof. reflexivity. Qed.

Lemma encode_items_opens level x items rest :
  opens (encode_items (encode level) (item_separator level) (x :: items) ++ rest).
Proof.
  destruct items as [|y items].
  - apply encode_opens.
  - rewrite encode_items_more, <- app_assoc. apply encode_opens.
Qed.

Lemma opens_first s :
  opens s → ∃ c tail, s = c :: tail ∧ is_char "]" c = false ∧ is_char "}" c = false.
Proof. destruct s as [|c tail]; [done|]. intros (_ & ? & ?). eauto. Qed.

Lemma skip_ws_separator level s :
  skip_ws (item_separator level ++ s) = ord "," :: newline_indent level ++ s.
Proof. reflexivity. Qed.

Lemma skip_ws_closing level c s :
  is_ws c = false →
  skip_ws (newline_indent level ++ c :: s) = c :: s.
Proof. intros H. rewrite skip_ws_newline_indent. simpl. by rewrite H. Qed.

Lemma closes_newline_indent level s : closes (newline_indent level ++ s).
Proof. reflexivity. Qed.

Lemma closes_separator level s : closes (item_separator level ++ s).
Proof. reflexivity. Qed.

Lemma scan_items_last fuel s v r r' :
  scan_once fuel s = Some (v, r) →
  skip_ws r = ord "]" :: r' →
  scan_items (S fuel) s = Some ([v], r').
Proof. intros H1 H2. simpl. by rewrite H1, H2. Qed.

Lemma scan_items_next fuel s v r r' :
  scan_once fuel s = Some (v, r) →
  skip_ws r = ord "," :: r' →
  scan_items (S fuel) s
  = (λ x, (v :: x.1, x.2)) <$> scan_items fuel (skip_ws r').
Proof. intros H1 H2. simpl. by rewrite H1, H2. Qed.

Lemma items_decode level closing items : ∀ fuel rest,
  items ≠ [] →
  Forall decodes items →
  (length (encode_items (encode level) (item_separator level) items) < fuel)%nat →
  scan_items fuel
    (encode_items (encode level) (item_separator level) items
     ++ newline_indent closing ++ ord "]" :: rest)
  = Some (map reread items, rest).
Proof.
  induction items as [|x items IH]; intros fuel rest Hne Hall Hlen; [done|].
  apply Forall_cons in Hall as [Hx Hall].
  destruct fuel as [|fuel]; [lia|].
  pose proof (encode_length level x) as Hx1.
  destruct items as [|y items].
  - change (encode_items (encode level) (item_separator level) [x])
      with (encode level x) in *.
    apply (scan_items_last fuel _ (reread x)
             (newline_indent closing ++ ord "]" :: rest)).
    + apply Hx; [apply closes_newline_indent|lia].
    + by apply skip_ws_closing.
  - rewrite encode_items_more in *. rewrite !length_app in Hlen.
    rewrite <- !app_assoc.
    rewrite (scan_items_next fuel _ (reread x)
               (item_separator level
                ++ encode_items (encode level) (item_separator level) (y :: items)
                ++ newline_indent closing ++ ord "]" :: rest)
               (newline_indent level
                ++ encode_items (encode level) (item_separator level) (y :: items)
                ++ newline_indent closing ++ ord "]" :: rest)).
    + rewrite skip_ws_newline_indent.
      rewrite skip_ws_opens by apply encode_items_opens.
      rewrite IH; [done|done|done|lia].
    + apply Hx; [apply closes_separator|lia].
    + apply skip_ws_separator.
Qed.

(** *** Dictionaries *)

Lemma encode_member_opens level kv rest : opens (encode_member level kv ++ rest).
Proof. unfold encode_member. rewrite <- app_assoc. apply encode_string_opens. Qed.

Lemma encode_members_opens level x members rest :
  opens (encode_items (encode_member level) (item_separator level) (x :: members)
         ++ rest).
Proof.
  destruct members as [|y members].
  - apply encode_member_opens.
  - rewrite encode_items_more, <- app_assoc. apply encode_member_opens.
Qed.

Lemma scan_member fuel level key v r :
  valid_str key →
  decodes v →
  closes r →
  (length (encode_member level (key, v)) ≤ fuel)%nat →
  ∃ s1 r0 r1,
    encode_member level (key, v) ++ r = dquote :: s1
    ∧ scanstring s1 = Some (join_pairs key, r0)
    ∧ skip_ws r0 = ord ":" :: r1
    ∧ scan_once fuel (skip_ws r1) = Some (reread v, r).
Proof.
  intros Hk Hv Hc Hlen. unfold encode_member in *. simpl fst in *. simpl snd in *.
  rewrite !length_app in Hlen.
  exists (escape_all key ++ dquote :: py ": " ++ encode level v ++ r),
         (py ": " ++ encode level v ++ r), (py " " ++ encode level v ++ r).
  split; [by rewrite <- !app_assoc, encode_string_eq|].
  split; [by apply scanstring_escape_all|]. split; [done|].
  change (skip_ws (py " " ++ encode level v ++ r))
    with (skip_ws (encode level v ++ r)).
  rewrite skip_ws_opens by apply encode_opens.
  apply Hv; [done|lia].
Qed.

Lemma scan_members_last fuel s1 key r0 r1 v r r' :
  scanstring s1 = Some (key, r0) →
  skip_ws r0 = ord ":" :: r1 →
  scan_once fuel (skip_ws r1) = Some (v, r) →
  skip_ws r = ord "}" :: r' →
  scan_members (S fuel) (dquote :: s1) = Some ([(key, v)], r').
Proof. intros H1 H2 H3 H4. simpl. by rewrite H1, H2, H3, H4. Qed.

Lemma scan_members_next fuel s1 key r0 r1 v r r' :
  scanstring s1 = Some (key, r0) →
  skip_ws r0 = ord ":" :: r1 →
  scan_once fuel (skip_ws r1) = Some (v, r) →
  skip_ws r = ord "," :: r' →
  scan_members (S fuel) (dquote :: s1)
  = (λ x, ((key, v) :: x.1, x.2)) <$> scan_members fuel (skip_ws r').
Proof. intros H1 H2 H3 H4. simpl. by rewrite H1, H2, H3, H4. Qed.

Lemma members_decode level closing members : ∀ fuel rest,
  members ≠ [] →
  Forall (λ kv, valid_str kv.1 ∧ decodes kv.2) members →
  (length (encode_items (encode_member level) (item_separator level) members)
   < fuel)%nat →
  scan_members fuel
    (encode_items (encode_member level) (item_separator level) members
     ++ newline_indent closing ++ ord "}" :: rest)
  = Some (map reread_member members, rest).
Proof.
  induction members as [|[k v] members IH]; intros fuel rest Hne Hall Hlen; [done|].
  apply Forall_cons in Hall as [[Hk Hv] Hall]. simpl in Hk, Hv.
  destruct fuel as [|fuel]; [lia|].
  destruct members as [|y members].
  - change (encode_items (encode_member level) (item_separator level) [(k, v)])
      with (encode_member level (k, v)) in *.
    destruct (scan_member fuel level k v
                (newline_indent closing ++ ord "}" :: rest) Hk Hv
                (closes_newline_indent _ _))
      as (s1 & r0 & r1 & E & H1 & H2 & H3); [lia|].
    rewrite E.
    apply (scan_members_last fuel s1 _ r0 r1 _ _ rest H1 H2 H3).
    by apply skip_ws_closing.
  - rewrite encode_items_more in *. rewrite !length_app in Hlen.
    rewrite <- !app_assoc.
    destruct (scan_member fuel level k v
                (item_separator level
                 ++ encode_items (encode_member level) (item_separator level)
                      (y :: members)
                 ++ newline_indent closing ++ ord "}" :: rest) Hk Hv
                (closes_separator _ _))
      as (s1 & r0 & r1 & E & H1 & H2 & H3); [lia|].
    rewrite E.
    rewrite (scan_members_next fuel s1 _ r0 r1 _ _ _ H1 H2 H3
               (skip_ws_separator _ _)).
    rewrite skip_ws_newline_indent.
    rewrite skip_ws_opens by apply encode_members_opens.
    rewrite IH; [done|done|done|].
    assert (1 ≤ length (encode_member level (k, v)))%nat as Hpos.
    { pose proof (encode_member_opens level (k, v) []) as Ho.
      rewrite app_nil_r in Ho.
      destruct (encode_member level (k, v)); [done|]. simpl. lia. }
    lia.
Qed.

(** *** Values *)

Lemma digit_not_opening c :
  is_digit c = true ∨ c = ord "-" →
  (c =? dquote)%N = false ∧ is_char "{" c = false ∧ is_char "[" c = false
  ∧ is_char "n" c = false ∧ is_char "t" c = false ∧ is_char "f" c = false.
Proof.
  intros [H| ->]; [|done]. apply between_true in H.
  unfold is_char, dquote.
  change (ord "{") with 123%N. change (ord "[") with 91%N.
  change (ord "n") with 110%N. change (ord "t") with 116%N.
  change (ord "f") with 102%N.
  repeat split; decide_tests; done.
Qed.

Lemma scan_once_number fuel c tail :
  is_digit c = true ∨ c = ord "-" →
  scan_once (S fuel) (c :: tail)
  = (λ r, (JInt r.1, r.2)) <$> scan_int (c :: tail).
Proof.
  intros Hd.
  destruct (digit_not_opening c Hd) as (H1 & H2 & H3 & H4 & H5 & H6).
  cbn [scan_once]. by rewrite H1, H2, H3, H4, H5, H6.
Qed.

Lemma scan_once_int fuel z rest :
  closes rest → (1 ≤ fuel)%nat →
  scan_once fuel (encode_int z ++ rest) = Some (JInt z, rest).
Proof.
  intros Hc Hf. destruct fuel as [|fuel]; [lia|].
  pose proof (scan_int_encode z rest Hc) as Hs.
  destruct (encode_int_first z rest) as (c & tail & E & Hd).
  rewrite E in *. by rewrite scan_once_number, Hs.
Qed.

Lemma scan_once_list fuel rest c1 rest1 :
  skip_ws rest = c1 :: rest1 →
  is_char "]" c1 = false →
  scan_once (S fuel) (ord "[" :: rest)
  = (λ r, (JArr r.1, r.2)) <$> scan_items fuel (c1 :: rest1).
Proof. intros H1 H2. cbn [scan_once]. by rewrite H1, H2. Qed.

Lemma scan_once_dict fuel rest c1 rest1 :
  skip_ws rest = c1 :: rest1 →
  is_char "}" c1 = false →
  scan_once (S fuel) (ord "{" :: rest)
  = (λ r, (JObj (dict r.1), r.2)) <$> scan_members fuel (c1 :: rest1).
Proof. intros H1 H2. cbn [scan_once]. by rewrite H1, H2. Qed.

Lemma length_newline_indent level : (1 ≤ length (newline_indent level))%nat.
Proof. unfold newline_indent. simpl. lia. Qed.

Lemma encode_list level x items :
  encode level (JArr (x :: items))
  = ord "[" :: newline_indent (S level)
    ++ encode_items (encode (S level)) (item_separator (S level)) (x :: items)
    ++ newline_indent level ++ [ord "]"].
Proof. reflexivity. Qed.

Lemma encode_dict level x members :
  encode level (JObj (x :: members))
  = ord "{" :: newline_indent (S level)
    ++ encode_items (encode_member (S level)) (item_separator (S level))
         (x :: members)
    ++ newline_indent level ++ [ord "}"].
Proof. reflexivity. Qed.

(** Every value of code points decodes from its own text, surrogate
    pairs joined. *)
Lemma valid_decodes v : valid v → decodes v.
Proof.
  induction v as [|b|z|s|items IH|members IH] using value_forall_ind;
    intros Hwf level fuel rest Hc Hlen.
  - destruct fuel as [|fuel]; [simpl in Hlen; lia|]. reflexivity.
  - destruct fuel as [|fuel]; [destruct b; simpl in Hlen; lia|].
    destruct b; reflexivity.
  - apply scan_once_int; [done|].
    pose proof (encode_length level (JInt z)). lia.
  - inversion Hwf as [| | |s' Hs| |]; subst.
    destruct fuel as [|fuel]; [pose proof (encode_length level (JStr s)); lia|].
    change (encode level (JStr s)) with (encode_string s).
    rewrite encode_string_eq. cbn [scan_once].
    change (dquote =? dquote)%N with true. cbv iota.
    by rewrite scanstring_escape_all.
  - inversion Hwf as [| | | |items' Hall|]; subst.
    destruct fuel as [|fuel]; [pose proof (encode_length level (JArr items)); lia|].
    destruct items as [|x items]; [reflexivity|].
    assert (Forall decodes (x :: items)) as Hdec.
    { apply Forall_forall. intros y Hy.
      rewrite Forall_forall in IH, Hall. by apply IH, Hall. }
    rewrite encode_list in *.
    cbn [length] in Hlen. rewrite !length_app in Hlen.
    pose proof (length_newline_indent (S level)) as Hn.
    assert (length
              (encode_items (encode (S level)) (item_separator (S level)) (x :: items))
            < fuel)%nat as Hlt by lia.
    pose proof (items_decode (S level) level (x :: items) fuel rest
                  ltac:(done) Hdec Hlt) as Hitems.
    destruct (opens_first _ (encode_items_opens (S level) x items
                 (newline_indent level ++ ord "]" :: rest)))
      as (c & tail & E & Hc1 & Hc2).
    rewrite <- app_comm_cons, <- !app_assoc.
    change ([ord "]"] ++ rest) with (ord "]" :: rest).
    rewrite (scan_once_list fuel _ c tail); [by rewrite <- E, Hitems| |done].
    rewrite skip_ws_newline_indent, <- E.
    apply skip_ws_opens, encode_items_opens.
  - inversion Hwf as [| | | | |members' Hall]; subst.
    destruct fuel as [|fuel]; [pose proof (encode_length level (JObj members)); lia|].
    destruct members as [|x members]; [reflexivity|].
    assert (Forall (λ kv, valid_str kv.1 ∧ decodes kv.2) (x :: members)) as Hdec.
    { apply Forall_forall. intros y Hy.
      rewrite Forall_forall in IH, Hall.
      destruct (Hall y Hy). split; [done|]. by apply IH. }
    rewrite encode_dict in *.
    cbn [length] in Hlen. rewrite !length_app in Hlen.
    pose proof (length_newline_indent (S level)) as Hn.
    assert (length
              (encode_items (encode_member (S level)) (item_separator (S level))
                 (x :: members))
            < fuel)%nat as Hlt by lia.
    pose proof (members_decode (S level) level (x :: members) fuel rest
                  ltac:(done) Hdec Hlt) as Hmembers.
    destruct (opens_first _ (encode_members_opens (S level) x members
                 (newline_indent level ++ ord "}" :: rest)))
      as (c & tail & E & Hc1 & Hc2).
    rewrite <- app_comm_cons, <- !app_assoc.
    change ([ord "}"] ++ rest) with (ord "}" :: rest).
    rewrite (scan_once_dict fuel _ c tail); [| |done].
    + by rewrite <- E, Hmembers.
    + rewrite skip_ws_newline_indent, <- E.
      apply skip_ws_opens, encode_members_opens.
Qed.

(** [json.loads(json.dumps(v, indent=2))] is [v] with its surrogate
    pairs joined. *)
Lemma loads_dumps v : valid v → loads (dumps v) = Some (reread v).
Proof.
  intros Hwf. unfold loads, dumps.
  pose proof (encode_opens 0 v []) as Ho. rewrite app_nil_r in Ho.
  rewrite skip_ws_opens by done.
  pose proof (valid_decodes v Hwf 0 (S (length (encode 0 v)))
                [] I ltac:(lia)) as H.
  rewrite app_nil_r in H. by rewrite H.
Qed.

(** *** Dictionaries of distinct keys *)

Lemma dict_set_fresh k v d :
  k ∉ d.*1 → dict_set k v d = d ++ [(k, v)].
Proof.
  induction d as [|[k' v'] d IH]; [done|]. intros Hk.
  apply not_elem_of_cons in Hk as [Hne Hk]. simpl.
  rewrite bool_decide_eq_false_2 by done. by rewrite IH.
Qed.

Lemma dict_fold pairs : ∀ d,
  NoDup (d.*1 ++ pairs.*1) →
  fold_left (λ d kv, dict_set kv.1 kv.2 d) pairs d = d ++ pairs.
Proof.
  induction pairs as [|[k v] pairs IH]; intros d Hnd; simpl.
  - by rewrite app_nil_r.
  - simpl in Hnd. rewrite dict_set_fresh.
    + rewrite IH; [by rewrite <- app_assoc|].
      rewrite fmap_app. simpl. by rewrite <- app_assoc.
    + apply NoDup_app in Hnd as (_ & Hd & _). intros Hin.
      apply (Hd k Hin). by left.
Qed.

Lemma dict_nodup pairs : NoDup pairs.*1 → dict pairs = pairs.
Proof. intros H. unfold dict. by rewrite dict_fold. Qed.

End JsonFacts.

(** ** The written archive *)

Module WriterFacts.
Import Json Writer.

Lemma below_in_seq (n lo len : Z) :
  (lo ≤ n < lo + len)%Z →
  In n (map (λ k, (lo + Z.of_nat k)%Z) (seq 0 (Z.to_nat len))).
Proof.
  intros H. apply in_map_iff. exists (Z.to_nat (n - lo)). split; [lia|].
  apply in_seq. lia.
Qed.

Lemma two_digits_wide n : (0 ≤ n ≤ 99)%Z → two_wide (two_digits n) = true.
Proof.
  intros H.
  assert (forallb (λ k, two_wide (two_digits k))
            (map (λ k, (0 + Z.of_nat k)%Z) (seq 0 (Z.to_nat 100))) = true)
    as Hall by (vm_compute; reflexivity).
  rewrite forallb_forall in Hall. apply Hall, below_in_seq. lia.
Qed.

Lemma year_wide n : (1000 ≤ n ≤ 9999)%Z → four_wide (encode_int n) = true.
Proof.
  intros H.
  assert (forallb (λ k, four_wide (encode_int k))
            (map (λ k, (1000 + Z.of_nat k)%Z) (seq 0 (Z.to_nat 9000))) = true)
    as Hall by (vm_compute; reflexivity).
  rewrite forallb_forall in Hall. apply Hall, below_in_seq. lia.
Qed.

Lemma strftime_shape now :
  valid_time now → has_shape date_shape (strftime now) = true.
Proof.
  intros (Hy & Hmo & Hd & Hh & Hmi & Hs). unfold strftime.
  pose proof (year_wide (tm_year now) Hy) as Y.
  pose proof (two_digits_wide (tm_mon now) ltac:(lia)) as Mo.
  pose proof (two_digits_wide (tm_mday now) ltac:(lia)) as D.
  pose proof (two_digits_wide (tm_hour now) ltac:(lia)) as H.
  pose proof (two_digits_wide (tm_min now) ltac:(lia)) as Mi.
  pose proof (two_digits_wide (tm_sec now) ltac:(lia)) as S.
  destruct (encode_int (tm_year now)) as [|y1 [|y2 [|y3 [|y4 [|]]]]]; try done.
  destruct (two_digits (tm_mon now)) as [|m1 [|m2 [|]]]; try done.
  destruct (two_digits (tm_mday now)) as [|d1 [|d2 [|]]]; try done.
  destruct (two_digits (tm_hour now)) as [|h1 [|h2 [|]]]; try done.
  destruct (two_digits (tm_min now)) as [|i1 [|i2 [|]]]; try done.
  destruct (two_digits (tm_sec now)) as [|s1 [|s2 [|]]]; try done.
  simpl in *.
  repeat match goal with
         | H : _ && _ = true |- _ => apply andb_true_iff in H as [? ?]
         end.
  unfold date_shape. cbn.
  repeat match goal with
         | H : is_digit _ = true |- _ => rewrite H; clear H
         end.
  reflexivity.
Qed.

(** *** Texts of characters below 256 *)

Lemma py_latin s : latin (py s).
Proof.
  induction s as [|c s IH]; [apply Forall_nil_2|].
  apply Forall_cons. split; [apply N_ascii_bounded|done].
Qed.

Lemma latin_valid s : latin s → valid_str s.
Proof. intros H. eapply Forall_impl; [exact H|]. simpl. lia. Qed.

Lemma latin_join s : latin s → join_pairs s = s.
Proof.
  induction 1 as [|h s Hh Hs IH]; [done|].
  destruct s as [|l s]; [done|].
  change (join_pairs (h :: l :: s))
    with (if is_high h && is_low l then pair h l :: join_pairs s
          else h :: join_pairs (l :: s)).
  assert (is_high h = false) as -> by (apply JsonFacts.between_false; lia).
  simpl andb. cbv iota. by rewrite IH.
Qed.

Lemma two_digits_latin n : latin (two_digits n).
Proof.
  unfold two_digits. destruct (_ && _)%Z; [apply Forall_cons; split; [done|]|];
    apply py_latin.
Qed.

Lemma strftime_latin now : latin (strftime now).
Proof.
  unfold strftime.
  repeat (apply Forall_app; split);
    first [apply py_latin | apply two_digits_latin].
Qed.

(** *** Records and the archive as values *)

Lemma strings_valid l : Forall valid_str l → Forall valid (map JStr l).
Proof. intros H. apply Forall_fmap. eapply Forall_impl; [done|]. by constructor. Qed.

Lemma record_json_valid r : valid_record r → valid (record_json r).
Proof.
  unfold valid_record, record_strings. intros H.
  apply Forall_cons in H as [Hu H]. apply Forall_cons in H as [Ht H].
  apply Forall_app in H as [Hx Hc].
  apply valid_obj.
  repeat (apply Forall_cons; split); try apply Forall_nil_2; cbn [fst snd];
    (split; [apply latin_valid, py_latin|]);
    first [by apply valid_str_ | by apply valid_arr, strings_valid].
Qed.

Lemma run_archive_valid index_url now self :
  valid_str index_url →
  Forall valid_record (results self) →
  valid (run_archive index_url now self).
Proof.
  intros Hu Hr. apply valid_obj.
  repeat (apply Forall_cons; split); try apply Forall_nil_2; cbn [fst snd];
    (split; [apply latin_valid, py_latin|]).
  - by apply valid_str_.
  - apply valid_int.
  - apply valid_str_, latin_valid, strftime_latin.
  - apply valid_arr, Forall_fmap. eapply Forall_impl; [done|].
    apply record_json_valid.
Qed.

Lemma reread_strings l : map reread (map JStr l) = map JStr (map join_pairs l).
Proof. induction l as [|s l IH]; [done|]. simpl. by rewrite IH. Qed.

(** A record read back is the record of the strings read back. *)
Lemma reread_record_json r :
  reread (record_json r) = record_json (reread_record r).
Proof.
  unfold record_json, reread_record.
  cbn [reread map fst snd url title text_content code_blocks].
  rewrite !(latin_join (py _)) by apply py_latin.
  rewrite !reread_strings, JsonFacts.dict_nodup; [done|].
  apply (bool_decide_unpack _). vm_compute. exact I.
Qed.

Lemma reread_records rs :
  map reread (map record_json rs) = map record_json (map reread_record rs).
Proof.
  induction rs as [|r rs IH]; [done|].
  change (reread (record_json r) :: map reread (map record_json rs)
          = record_json (reread_record r) :: map record_json (map reread_record rs)).
  by rewrite IH, reread_record_json.
Qed.

(** The archive read back. *)
Lemma reread_run_archive index_url now self :
  reread (run_archive index_url now self)
  = JObj
      [(py "base_url", JStr (join_pairs index_url));
       (py "total_keywords", JInt (Z.of_nat (length (results self))));
       (py "scraped_date", JStr (strftime now));
       (py "results",
        JArr (map record_json (map reread_record (results self))))].
Proof.
  unfold run_archive. cbn [reread map fst snd].
  rewrite !(latin_join (py _)) by apply py_latin.
  rewrite reread_records, (latin_join (strftime now)) by apply strftime_latin.
  rewrite JsonFacts.dict_nodup; [done|].
  apply (bool_decide_unpack _). vm_compute. exact I.
Qed.

Lemma join_pairs_all l : Forall pair_free l → map join_pairs l = l.
Proof.
  induction 1 as [|s l Hs Hl IH]; [done|].
  simpl. by rewrite IH, JsonFacts.join_pairs_free.
Qed.

Lemma reread_record_free r : pair_free_record r → reread_record r = r.
Proof.
  unfold pair_free_record, record_strings. intros H.
  apply Forall_cons in H as [Hu H]. apply Forall_cons in H as [Ht H].
  apply Forall_app in H as [Hx Hc].
  destruct r as [u t x c]. unfold reread_record. simpl in *.
  by rewrite !JsonFacts.join_pairs_free, !join_pairs_all.
Qed.

Lemma reread_records_free rs :
  Forall pair_free_record rs → map reread_record rs = rs.
Proof.
  induction 1 as [|r rs Hr Hrs IH]; [done|].
  simpl. by rewrite IH, reread_record_free.
Qed.

Lemma JStr_inj_list (l1 l2 : list str) : map JStr l1 = map JStr l2 → l1 = l2.
Proof.
  revert l2. induction l1 as [|a l1 IH]; intros [|b l2] H; try done.
  injection H as -> H. f_equal. by apply IH.
Qed.

Lemma record_json_inj r1 r2 : record_json r1 = record_json r2 → r1 = r2.
Proof.
  destruct r1, r2. unfold record_json. simpl. intros H.
  injection H as -> -> Ht Hc.
  apply JStr_inj_list in Ht, Hc. by subst.
Qed.

Lemma records_json_inj rs1 rs2 :
  map record_json rs1 = map record_json rs2 → rs1 = rs2.
Proof.
  revert rs2. induction rs1 as [|a rs1 IH]; intros [|b rs2] H; try done.
  change (record_json a :: map record_json rs1
          = record_json b :: map record_json rs2) in H.
  assert (record_json a = record_json b) as Ha by congruence.
  assert (map record_json rs1 = map record_json rs2) as Ht by congruence.
  apply record_json_inj in Ha as ->. f_equal. by apply IH.
Qed.

End WriterFacts.

(** C8 (amended).  After a write without fault the file holds a text
    that [json.loads] reads back as a dictionary whose [results] entry
    is the list of the records of the session, in the same order, each
    with every high surrogate that is followed by a low surrogate
    joined to it into one code point.  When no string of the records
    holds such a pair, the entry is the list of the records of the
    session as they are, and no other list of records has that image. *)
Theorem results_round_trip (index_url output_file : str)
    (now : struct_time) (self : Scraper) (disk : gmap str str) :
  Json.valid_str index_url →
  Forall Writer.valid_record (results self) →
  ∃ text members,
    (Writer.save_results index_url output_file now NoFault self disk).1
      !! output_file = Some text
    ∧ Json.loads text = Some (Json.JObj members)
    ∧ Json.get "results" members
      = Some (Json.JArr
                (map Writer.record_json
                   (map Writer.reread_record (results self))))
    ∧ (Forall Writer.pair_free_record (results self) →
       Json.get "results" members
       = Some (Json.JArr (map Writer.record_json (results self)))
       ∧ ∀ rs,
           Json.get "results" members
           = Some (Json.JArr (map Writer.record_json rs)) →
           rs = results self).
Proof.
  intros Hu Hr. eexists _, _. simpl. rewrite lookup_insert_eq.
  split; [reflexivity|].
  split.
  { rewrite JsonFacts.loads_dumps by by apply WriterFacts.run_archive_valid.
    by rewrite WriterFacts.reread_run_archive. }
  split; [reflexivity|].
  intros Hfree. rewrite WriterFacts.reread_records_free by done.
  split; [reflexivity|].
  intros rs H.
  change (Some (Json.JArr (map Writer.record_json (results self)))
          = Some (Json.JArr (map Writer.record_json rs))) in H.
  symmetry. apply WriterFacts.records_json_inj. congruence.
Qed.

Lemma results_round_trip_small :
  ∃ text members,
    (Writer.save_results Site.index Scenario.output_file Scenario.now NoFault
       Scenario.crawled Scenario.disk).1 !! Scenario.output_file = Some text
    ∧ Json.loads text = Some (Json.JObj members)
    ∧ Json.get "results" members
      = Some (Json.JArr
                (map Writer.record_json
                   (map Writer.reread_record (results Scenario.crawled))))
    ∧ (Forall Writer.pair_free_record (results Scenario.crawled) →
       Json.get "results" members
       = Some (Json.JArr (map Writer.record_json (results Scenario.crawled)))
       ∧ ∀ rs,
           Json.get "results" members
           = Some (Json.JArr (map Writer.record_json rs)) →
           rs = results Scenario.crawled).
Proof.
  apply (results_round_trip Site.index Scenario.output_file Scenario.now
           Scenario.crawled Scenario.disk).
  - apply (bool_decide_unpack _). vm_compute. exact I.
  - apply (bool_decide_unpack _). vm_compute. exact I.
Defined.

(** C8, as stated, fails: the parser turns the character references
    [&#xD83D;&#xDE00;] of a keyword page into a text of two surrogates,
    the file holds them as the escapes [\ud83d\ude00], and [json.loads]
    reads one code point, [U+1F600]: the [results] array read back is
    not that of the records of the session. *)
Lemma surrogate_pair_read_back_joined :
  let self := Scenario.emoji_session in
  ∃ text members rs,
    (Writer.save_results Site.index Scenario.output_file Scenario.now NoFault
       self Scenario.disk).1 !! Scenario.output_file = Some text
    ∧ Json.loads text = Some (Json.JObj members)
    ∧ Json.get "results" members = Some (Json.JArr (map Writer.record_json rs))
    ∧ Json.get "results" members
      ≠ Some (Json.JArr (map Writer.record_json (results self)))
    ∧ rs ≠ results self
    ∧ map text_content (results self) = [[[55357; 56832]%N]]
    ∧ Json.escape_all [55357; 56832]%N = "\ud83d\ude00"
    ∧ map text_content rs = [[[128512]%N]].
Proof.
  exists (Json.dumps (Writer.run_archive Site.index Scenario.now
                        Scenario.emoji_session)),
         (match Json.loads (Json.dumps (Writer.run_archive Site.index Scenario.now
                                          Scenario.emoji_session)) with
          | Some (Json.JObj members) => members
          | _ => []
          end),
         (map Writer.reread_record (results Scenario.emoji_session)).
  vm_compute. repeat split; done.
Qed.

(** C7.  The written text reads back as a dictionary with the keys
    [base_url], [total_keywords], [scraped_date] and [results], in that
    order: [base_url] is the index URL as it is read back, the index
    URL itself when it holds no surrogate pair, [total_keywords] the
    length of the [results] list, which has one entry per record of the
    session, and [scraped_date] has the shape [YYYY-MM-DD HH:MM:SS]. *)
Theorem archive_keys_and_count (index_url output_file : str)
    (now : struct_time) (self : Scraper) (disk : gmap str str) :
  Writer.valid_time now →
  Json.valid_str index_url →
  Forall Writer.valid_record (results self) →
  ∃ text date rs,
    (Writer.save_results index_url output_file now NoFault self disk).1
      !! output_file = Some text
    ∧ Json.loads text
      = Some (Json.JObj
                [(py "base_url", Json.JStr (Json.join_pairs index_url));
                 (py "total_keywords", Json.JInt (Z.of_nat (length rs)));
                 (py "scraped_date", Json.JStr date);
                 (py "results", Json.JArr rs)])
    ∧ (Json.pair_free index_url → Json.join_pairs index_url = index_url)
    ∧ rs = map Writer.record_json (map Writer.reread_record (results self))
    ∧ length rs = length (results self)
    ∧ date = Writer.strftime now
    ∧ Writer.has_shape Writer.date_shape date = true.
Proof.
  intros Hv Hu Hr.
  exists (Json.dumps (Writer.run_archive index_url now self)),
         (Writer.strftime now),
         (map Writer.record_json (map Writer.reread_record (results self))).
  simpl. rewrite lookup_insert_eq. split; [reflexivity|].
  split.
  - rewrite JsonFacts.loads_dumps by by apply WriterFacts.run_archive_valid.
    by rewrite WriterFacts.reread_run_archive, !length_map.
  - split; [apply JsonFacts.join_pairs_free|].
    repeat split; [by rewrite !length_map|by apply WriterFacts.strftime_shape].
Qed.

Lemma archive_keys_and_count_small :
  ∃ text date rs,
    (Writer.save_results Site.index Scenario.output_file Scenario.now NoFault
       Scenario.crawled Scenario.disk).1 !! Scenario.output_file = Some text
    ∧ Json.loads text
      = Some (Json.JObj
                [(py "base_url", Json.JStr (Json.join_pairs Site.index));
                 (py "total_keywords", Json.JInt (Z.of_nat (length rs)));
                 (py "scraped_date", Json.JStr date);
                 (py "results", Json.JArr rs)])
    ∧ (Json.pair_free Site.index → Json.join_pairs Site.index = Site.index)
    ∧ rs = map Writer.record_json
             (map Writer.reread_record (results Scenario.crawled))
    ∧ length rs = length (results Scenario.crawled)
    ∧ date = Writer.strftime Scenario.now
    ∧ Writer.has_shape Writer.date_shape date = true.
Proof.
  apply (archive_keys_and_count Site.index Scenario.output_file Scenario.now
           Scenario.crawled Scenario.disk).
  - unfold Writer.valid_time. simpl. lia.
  - apply (bool_decide_unpack _). vm_compute. exact I.
  - apply (bool_decide_unpack _). vm_compute. exact I.
Defined.

(** C5 (amended).  When the disk fails after [written] characters of
    the text, [save_results] raises and the file holds exactly those
    characters, a proper prefix of the archive, in place of what it held
    before; the other files are untouched.  When [open] fails the disk
    is unchanged. *)
Theorem failed_write_leaves_prefix (index_url output_file : str)
    (now : struct_time) (self : Scraper) (disk : gmap str str)
    (written : nat) :
  let text := Json.dumps (Writer.run_archive index_url now self) in
  (written < length text)%nat →
  Writer.save_results index_url output_file now (WriteFails written) self disk
    = (<[output_file := take written text]> disk, Raises OSError)
  ∧ (Writer.save_results index_url output_file now (WriteFails written) self disk).1
      !! output_file = Some (take written text)
  ∧ length (take written text) = written
  ∧ take written text ≠ text
  ∧ (∀ other, other ≠ output_file →
       (Writer.save_results index_url output_file now (WriteFails written) self disk).1
         !! other = disk !! other)
  ∧ Writer.save_results index_url output_file now OpenFails self disk
    = (disk, Raises OSError).
Proof.
  intros text Hlt. unfold Writer.save_results. fold text.
  apply Nat.ltb_lt in Hlt as Hb. rewrite Hb. simpl.
  assert (length (take written text) = written) as Hlen
    by (rewrite length_take; lia).
  repeat split; try done.
  - apply lookup_insert_eq.
  - intros E. rewrite E in Hlen. lia.
  - intros other Hne. by apply lookup_insert_ne.
Qed.

Lemma failed_write_leaves_prefix_small :
  Writer.save_results Site.index Scenario.output_file Scenario.now
    (WriteFails 40) Scenario.crawled Scenario.disk
    = (<[Scenario.output_file := take 40 Scenario.text]> Scenario.disk,
       Raises OSError)
  ∧ (Writer.save_results Site.index Scenario.output_file Scenario.now
       (WriteFails 40) Scenario.crawled Scenario.disk).1
      !! Scenario.output_file = Some (take 40 Scenario.text)
  ∧ length (take 40 Scenario.text) = 40%nat
  ∧ take 40 Scenario.text ≠ Scenario.text
  ∧ (∀ other, other ≠ Scenario.output_file →
       (Writer.save_results Site.index Scenario.output_file Scenario.now
          (WriteFails 40) Scenario.crawled Scenario.disk).1
         !! other = Scenario.disk !! other)
  ∧ Writer.save_results Site.index Scenario.output_file Scenario.now
      OpenFails Scenario.crawled Scenario.disk
    = (Scenario.disk, Raises OSError).
Proof.
  apply (failed_write_leaves_prefix Site.index Scenario.output_file Scenario.now
           Scenario.crawled Scenario.disk 40).
  vm_compute. lia.
Defined.

(** C5, as stated, fails: after a write that fails at the fortieth
    character the file holds a text that is neither what it held before
    nor the archive, and that [json.loads] rejects. *)
Lemma partial_archive_persisted :
  let after :=
    Writer.save_results Site.index Scenario.output_file Scenario.now
      (WriteFails 40) Scenario.crawled Scenario.disk in
  after.2 = Raises OSError
  ∧ after.1 !! Scenario.output_file = Some (take 40 Scenario.text)
  ∧ after.1 !! Scenario.output_file ≠ Scenario.disk !! Scenario.output_file
  ∧ after.1 !! Scenario.output_file ≠ Some Scenario.text
  ∧ length (take 40 Scenario.text) = 40%nat
  ∧ Json.loads (take 40 Scenario.text) = None.
Proof. vm_compute. repeat split; try done; lia. Qed.

(** ** The text that is written *)

Module PlainFacts.
Import Json.

Lemma plain_app a b :
  forallb plain (a ++ b) = forallb plain a && forallb plain b.
Proof. apply forallb_app. Qed.

Lemma hex_char_plain n : (n < 16)%N → plain (hex_char n) = true.
Proof.
  intros H. unfold hex_char, plain.
  destruct (N.ltb_spec n 10); apply orb_true_iff; right;
    apply JsonFacts.between_true; lia.
Qed.

Lemma hex_digits_plain n : forallb plain (hex_digits n) = true.
Proof.
  unfold hex_digits. cbn [forallb].
  rewrite !hex_char_plain; [done|apply N.mod_lt; lia..].
Qed.

Lemma u_escape_plain n : forallb plain (u_escape n) = true.
Proof. unfold u_escape. cbn [forallb]. by rewrite hex_digits_plain. Qed.

Lemma escape_plain c : forallb plain (escape c) = true.
Proof.
  unfold escape.
  repeat match goal with
         | |- context [(c =? ?k)%N] => destruct (c =? k)%N; [reflexivity|]
         end.
  destruct (PyStr.between 32 126 c) eqn:E.
  - cbn [forallb]. unfold plain. by rewrite E, orb_true_r.
  - destruct (c <? 65536)%N; [apply u_escape_plain|].
    by rewrite plain_app, !u_escape_plain.
Qed.

Lemma escape_all_plain s : forallb plain (escape_all s) = true.
Proof.
  induction s as [|c s IH]; [done|].
  by rewrite JsonFacts.escape_all_cons, plain_app, escape_plain, IH.
Qed.

Lemma encode_string_plain s : forallb plain (encode_string s) = true.
Proof.
  unfold encode_string. cbn [forallb].
  by rewrite plain_app, escape_all_plain.
Qed.

Lemma newline_indent_plain level : forallb plain (newline_indent level) = true.
Proof.
  unfold newline_indent. cbn [forallb].
  induction (2 * level)%nat as [|n IH]; [done|]. simpl in *. done.
Qed.

Lemma item_separator_plain level :
  forallb plain (item_separator level) = true.
Proof. unfold item_separator. cbn [forallb]. by rewrite newline_indent_plain. Qed.

Lemma uint_plain d :
  forallb plain (py (NilEmpty.string_of_uint d)) = true.
Proof. induction d; simpl; try done. Qed.

Lemma encode_int_plain z : forallb plain (encode_int z) = true.
Proof.
  unfold encode_int, NilZero.string_of_int, NilZero.string_of_uint.
  destruct (Z.to_int z) as [d|d]; destruct d; try done;
    try apply (uint_plain (_ _));
    change (forallb plain (py (String "-" (NilEmpty.string_of_uint ?u))))
      with (forallb plain (py (NilEmpty.string_of_uint u)));
    apply (uint_plain (_ _)).
Qed.

Lemma encode_items_plain {A} (enc : A → str) sep items :
  forallb plain sep = true →
  Forall (λ x, forallb plain (enc x) = true) items →
  forallb plain (encode_items enc sep items) = true.
Proof.
  intros Hs. induction 1 as [|x items Hx Hitems IH]; [done|].
  destruct items as [|y items]; [done|].
  rewrite JsonFacts.encode_items_more, !plain_app, Hx, Hs. apply IH.
Qed.

(** [json.dump] writes ASCII only. *)
Lemma encode_plain v : ∀ level, forallb plain (encode level v) = true.
Proof.
  induction v as [|b|z|s|items IH|members IH] using value_forall_ind;
    intros level.
  - done.
  - by destruct b.
  - apply encode_int_plain.
  - apply encode_string_plain.
  - destruct items as [|x items]; [done|].
    rewrite JsonFacts.encode_list. cbn [forallb].
    rewrite !plain_app, !newline_indent_plain, encode_items_plain; [done| |].
    + apply item_separator_plain.
    + eapply Forall_impl; [exact IH|]. intros v Hv. apply Hv.
  - destruct members as [|x members]; [done|].
    rewrite JsonFacts.encode_dict. cbn [forallb].
    rewrite !plain_app, !newline_indent_plain, encode_items_plain; [done| |].
    + apply item_separator_plain.
    + eapply Forall_impl; [exact IH|]. intros [k v] Hv. simpl in Hv.
      unfold encode_member. cbn [fst snd].
      by rewrite !plain_app, encode_string_plain, Hv.
Qed.

End PlainFacts.

(** X9.  Whatever the pages hold, the text that [save_results] writes
    is ASCII: line feeds and printable characters only, every other
    character of a string being written as an escape; so is the part of
    it that a failed write leaves. *)
Theorem written_text_is_ascii (index_url output_file : str)
    (now : struct_time) (self : Scraper) (disk : gmap str str)
    (written : nat) :
  ∃ text part,
    (Writer.save_results index_url output_file now NoFault self disk).1
      !! output_file = Some text
    ∧ forallb plain text = true
    ∧ (Writer.save_results index_url output_file now (WriteFails written)
         self disk).1 !! output_file = Some part
    ∧ forallb plain part = true.
Proof.
  set (text := Json.dumps (Writer.run_archive index_url now self)).
  assert (forallb plain text = true) as Hp by apply PlainFacts.encode_plain.
  exists text, (if (written <? length text)%nat then take written text else text).
  unfold Writer.save_results. fold text.
  split; [apply lookup_insert_eq|]. split; [done|].
  destruct (written <? length text)%nat; cbn [fst];
    (split; [apply lookup_insert_eq|]); [|done].
  rewrite <- (take_drop written text), PlainFacts.plain_app in Hp.
  by apply andb_true_iff in Hp as [? _].
Qed.

(** ** The output directory *)

Module PathFacts.
Import Posixpath.

Lemma upto_last_sep_none p :
  Forall (λ c, c ≠ sep) p → upto_last_sep p = [].
Proof.
  induction 1 as [|c p Hc _ IH]; [done|]. simpl. rewrite IH.
  by apply N.eqb_neq in Hc as ->.
Qed.

Lemma upto_last_sep_app d f :
  Forall (λ c, c ≠ sep) f → upto_last_sep (d ++ sep :: f) = d ++ [sep].
Proof.
  intros Hf. induction d as [|c d IH]; simpl.
  - by rewrite upto_last_sep_none.
  - rewrite IH. by destruct d.
Qed.

Lemma rstrip_sep_fixed d c :
  last d = Some c → c ≠ sep → rstrip_sep d = d.
Proof.
  induction d as [|a d IH]; [done|]. intros Hl Hc. simpl.
  destruct d as [|b d].
  - injection Hl as ->. by apply N.eqb_neq in Hc as ->.
  - rewrite last_cons in Hl. destruct (last (b :: d)) as [x|] eqn:Lx;
      [|by apply last_None in Lx].
    rewrite IH by congruence. done.
Qed.

Lemma rstrip_sep_app d c :
  last d = Some c → c ≠ sep → rstrip_sep (d ++ [sep]) = d.
Proof.
  induction d as [|a d IH]; [done|]. intros Hl Hc. simpl.
  destruct d as [|b d].
  - injection Hl as ->. simpl. by apply N.eqb_neq in Hc as ->.
  - rewrite last_cons in Hl. destruct (last (b :: d)) as [x|] eqn:Lx;
      [|by apply last_None in Lx].
    rewrite IH by congruence. done.
Qed.

Lemma only_seps_last d c :
  last d = Some c → c ≠ sep → only_seps (d ++ [sep]) = false.
Proof.
  intros Hl Hc. unfold only_seps. rewrite forallb_app.
  apply andb_false_iff. left.
  induction d as [|a d IH]; [done|]. simpl.
  destruct d as [|b d].
  - injection Hl as ->. by apply N.eqb_neq in Hc as ->.
  - rewrite last_cons in Hl. destruct (last (b :: d)) as [x|] eqn:Lx;
      [|by apply last_None in Lx].
    rewrite IH by congruence. apply andb_false_r.
Qed.

Lemma dirname_bare p : Forall (λ c, c ≠ sep) p → dirname p = [].
Proof. intros H. unfold dirname. by rewrite upto_last_sep_none. Qed.

Lemma dirname_app d f c :
  last d = Some c → c ≠ sep → Forall (λ c, c ≠ sep) f →
  dirname (d ++ sep :: f) = d.
Proof.
  intros Hl Hc Hf. unfold dirname. rewrite upto_last_sep_app by done.
  rewrite (only_seps_last d c) by done.
  assert (PyStr.truthy (d ++ [sep]) = true) as -> by (by destruct d).
  by apply (rstrip_sep_app d c).
Qed.

End PathFacts.

(** X10.  For an output file named without a directory the constructor
    asks for no directory, whatever the file system holds, and the
    session starts empty. *)
Theorem bare_file_name_needs_no_directory (path_exists : str → bool)
    (output_file : str) :
  Forall (λ c, c ≠ Posixpath.sep) output_file →
  Program.init path_exists output_file = (mkScraper ∅ [] [], []).
Proof.
  intros H. unfold Program.init. by rewrite PathFacts.dirname_bare.
Qed.

Lemma bare_file_name_needs_no_directory_main :
  Program.init (λ _, false) Scenario.output_file = (mkScraper ∅ [] [], []).
Proof.
  apply (bare_file_name_needs_no_directory (λ _, false) Scenario.output_file).
  apply (bool_decide_unpack _). vm_compute. exact I.
Defined.

(** X11.  For an output file [dir/name] the constructor asks
    [os.makedirs] for the directory [dir] exactly when no path [dir]
    exists, and for nothing when one does. *)
Theorem output_directory_created_when_missing (path_exists : str → bool)
    (dir name : str) (c : N) :
  last dir = Some c → c ≠ Posixpath.sep →
  Forall (λ c, c ≠ Posixpath.sep) name →
  Posixpath.dirname (dir ++ Posixpath.sep :: name) = dir
  ∧ (Program.init path_exists (dir ++ Posixpath.sep :: name)).2
    = if path_exists dir then [] else [Makedirs dir].
Proof.
  intros Hl Hc Hn. unfold Program.init.
  rewrite (PathFacts.dirname_app dir name c) by done.
  split; [done|]. simpl. destruct dir; [done|]. simpl.
  by destruct (path_exists _).
Qed.

Lemma output_directory_created_when_missing_nested :
  Posixpath.dirname "out/data/vfp.json" = "out/data"
  ∧ (Program.init (λ _, false) "out/data/vfp.json").2
    = [Makedirs "out/data"].
Proof.
  apply (output_directory_created_when_missing (λ _, false)
           "out/data" "vfp.json" 97%N).
  - reflexivity.
  - unfold Posixpath.sep. lia.
  - apply (bool_decide_unpack _). vm_compute. exact I.
Defined.

(** ** The exchange log and the results *)

Section CrawlFacts.

Variable urljoin : str → str → str.
Variable netloc : str → str.
Variable path : str → str.
Variable is_letter : N → bool.
Variable web : list Exchange → str → Reply.
Variable index_url : str.

Local Abbreviation normalized_url := (Crawler.normalized_url netloc path).
Local Abbreviation fetch_page := (Crawler.fetch_page web).
Local Abbreviation extract_keyword_content := (Crawler.extract_keyword_content web).
Local Abbreviation keyword_step := (Crawler.keyword_step urljoin netloc path).
Local Abbreviation keyword_links := (Crawler.keyword_links urljoin netloc path).
Local Abbreviation process_keyword := (Crawler.process_keyword web).
Local Abbreviation scrape_letter_page := (Crawler.scrape_letter_page urljoin netloc path web).
Local Abbreviation scrape_letters := (Crawler.scrape_letters urljoin netloc path web).
Local Abbreviation letter_links := (Crawler.letter_links urljoin is_letter index_url).
Local Abbreviation scrape_alphabet_index :=
  (Crawler.scrape_alphabet_index urljoin netloc path is_letter web index_url).

Lemma fetch_page_eq who self u :
  fetch_page who self u =
    (mkScraper (visited_urls self) (results self)
       (exchanges self ++
          [mkExchange who u (Fetcher.fetch_catch (Fetcher.fetch_try (web (exchanges self) u)))]),
     Fetcher.fetch_catch (Fetcher.fetch_try (web (exchanges self) u))).
Proof. reflexivity. Qed.

Lemma process_keyword_eq self link :
  let o := Fetcher.fetch_catch (Fetcher.fetch_try (web (exchanges self) link.2)) in
  process_keyword self link =
    mkScraper (visited_urls self)
      (results self ++ option_list (Extractor.extract link.2 <$> o))
      (exchanges self ++ [mkExchange FromKeyword link.2 o]).
Proof.
  unfold process_keyword, Crawler.extract_keyword_content. rewrite fetch_page_eq.
  destruct (Fetcher.fetch_catch _); simpl; [reflexivity|].
  by rewrite app_nil_r.
Qed.

Local Abbreviation keyword_exchanges := Crawler.keyword_exchanges.
Local Abbreviation recorded := Crawler.recorded.
Local Abbreviation init := Crawler.init.
Local Abbreviation keyword_requests := Crawler.keyword_requests.
Local Abbreviation section4_refs := (Crawler.section4_refs urljoin).
Local Abbreviation refs_of := (Crawler.refs_of urljoin).
Local Abbreviation discovered := (Crawler.discovered urljoin).
Local Abbreviation records_for := (Crawler.records_for netloc path).
Local Abbreviation key_of := (Crawler.key_of netloc path).

(** The first loop of [scrape_letter_page] on any list of tags. *)
Lemma keyword_fold url elems : ∀ v acc,
  ∃ new,
    (fold_left (keyword_step url) elems (v, acc)).2 = acc ++ new
    ∧ (fold_left (keyword_step url) elems (v, acc)).1
      = list_to_set (map key_of new) ∪ v
    ∧ NoDup (map key_of new)
    ∧ (∀ l, l ∈ new → key_of l ∉ v)
    ∧ sublist (map snd new)
        (map (λ a, urljoin url (Bs4.href a))
           (filter (λ a, PyStr.contains "section4/" (Bs4.href a) = true) elems))
    ∧ (∀ a, a ∈ elems → PyStr.contains "section4/" (Bs4.href a) = true →
         normalized_url (urljoin url (Bs4.href a))
           ∈ (fold_left (keyword_step url) elems (v, acc)).1).
Proof.
  induction elems as [|a elems IH]; intros v acc.
  - exists []. simpl. rewrite app_nil_r. repeat split; try constructor.
    + set_solver.
    + intros l Hl. inversion Hl.
    + intros a Ha. inversion Ha.
  - simpl. unfold Crawler.keyword_step at 2 4 6. simpl.
    destruct (PyStr.contains "section4/" (Bs4.href a)) eqn:Hc; simpl.
    + destruct (bool_decide (normalized_url (urljoin url (Bs4.href a)) ∈ v)) eqn:Hv.
      * apply bool_decide_eq_true in Hv.
        destruct (IH v acc) as (new & E2 & E1 & Hnd & Hfresh & Hsub & Hall).
        exists new. rewrite filter_cons_True by done. simpl.
        repeat split; try done.
        -- by apply sublist_cons.
        -- intros b Hb Hcb. apply elem_of_cons in Hb as [->|Hb]; [|by apply Hall].
           rewrite E1. set_solver.
      * apply bool_decide_eq_false in Hv.
        set (l := (Bs4.get_text_strip (Bs4.node_of a), urljoin url (Bs4.href a))).
        destruct (IH ({[normalized_url (urljoin url (Bs4.href a))]} ∪ v) (acc ++ [l]))
          as (new & E2 & E1 & Hnd & Hfresh & Hsub & Hall).
        exists (l :: new). rewrite filter_cons_True by done. simpl.
        repeat split.
        -- by rewrite E2, <- app_assoc.
        -- rewrite E1. simpl. set_solver.
        -- constructor; [|done]. intros Hin.
           apply list_elem_of_fmap in Hin as (l' & Hk & Hl').
           apply Hfresh in Hl'. rewrite <- Hk in Hl'.
           apply Hl', elem_of_union_l, elem_of_singleton. reflexivity.
        -- intros l' Hl'. apply elem_of_cons in Hl' as [->|Hl'].
           ++ done.
           ++ apply Hfresh in Hl'. set_solver.
        -- by apply sublist_skip.
        -- intros b Hb Hcb. apply elem_of_cons in Hb as [->|Hb]; [|by apply Hall].
           rewrite E1. set_solver.
    + destruct (IH v acc) as (new & E2 & E1 & Hnd & Hfresh & Hsub & Hall).
      exists new. rewrite filter_cons_False by (rewrite Hc; done).
      repeat split; try done.
      intros b Hb Hcb. apply elem_of_cons in Hb as [->|Hb]; [congruence|by apply Hall].
Qed.

Lemma keyword_links_eq self url soup :
  keyword_links self url soup =
    (mkScraper
       (fold_left (keyword_step url) (Bs4.find_all_href "a" document_name soup)
          (visited_urls self, [])).1
       (results self) (exchanges self),
     (fold_left (keyword_step url) (Bs4.find_all_href "a" document_name soup)
        (visited_urls self, [])).2).
Proof.
  unfold Crawler.keyword_links.
  by destruct (fold_left _ _ _).
Qed.

(** The first loop on a page: what is kept, and what [visited_urls]
    becomes. *)
Lemma keyword_links_spec self url soup :
  let self' := (keyword_links self url soup).1 in
  let links := (keyword_links self url soup).2 in
  results self' = results self
  ∧ exchanges self' = exchanges self
  ∧ visited_urls self' = list_to_set (map key_of links) ∪ visited_urls self
  ∧ NoDup (map key_of links)
  ∧ (∀ l, l ∈ links → key_of l ∉ visited_urls self)
  ∧ sublist (map snd links) (section4_refs url soup)
  ∧ (∀ u, u ∈ section4_refs url soup → normalized_url u ∈ visited_urls self').
Proof.
  rewrite keyword_links_eq. simpl.
  destruct (keyword_fold url (Bs4.find_all_href "a" document_name soup)
              (visited_urls self) []) as (new & E2 & E1 & Hnd & Hfresh & Hsub & Hall).
  simpl in E2. rewrite E2, E1. repeat split; try done.
  intros u Hu. unfold Crawler.section4_refs in Hu.
  apply list_elem_of_fmap in Hu as (a & -> & Ha).
  apply list_elem_of_filter in Ha as [Hc Ha].
  rewrite <- E1. by apply Hall.
Qed.

(** The second loop: one keyword exchange per link, in order, and the
    records of those that succeed. *)
Lemma process_keywords_spec links : ∀ self,
  ∃ new,
    exchanges (fold_left process_keyword links self) = exchanges self ++ new
    ∧ results (fold_left process_keyword links self)
      = results self ++ omap recorded new
    ∧ visited_urls (fold_left process_keyword links self) = visited_urls self
    ∧ map request new = map snd links
    ∧ Forall (λ e, caller e = FromKeyword) new.
Proof.
  induction links as [|l links IH]; intros self.
  - exists []. simpl. by rewrite !app_nil_r.
  - simpl. destruct (IH (process_keyword self l)) as (new & E & R & V & Q & C).
    pose proof (process_keyword_eq self l) as P. simpl in P.
    set (o := Fetcher.fetch_catch (Fetcher.fetch_try (web (exchanges self) l.2))) in *.
    exists (mkExchange FromKeyword l.2 o :: new).
    rewrite E, R, V, P. simpl. rewrite <- !app_assoc. simpl.
    repeat split; try done.
    + f_equal. unfold recorded at 2. simpl. by destruct o.
    + by f_equal.
    + by constructor.
Qed.

Local Abbreviation consistent := (Crawler.consistent urljoin netloc path).

Lemma scrape_letter_page_spec self letter url :
  let o := Fetcher.fetch_catch (Fetcher.fetch_try (web (exchanges self) url)) in
  let final := scrape_letter_page self letter url in
  ∃ kws,
    exchanges final = exchanges self ++ mkExchange FromLetter url o :: kws
    ∧ Forall (λ e, caller e = FromKeyword) kws
    ∧ results final = results self ++ omap recorded kws
    ∧ match o with
      | None => kws = [] ∧ visited_urls final = visited_urls self
      | Some soup =>
          visited_urls final
            = list_to_set (map normalized_url (map request kws)) ∪ visited_urls self
          ∧ NoDup (map normalized_url (map request kws))
          ∧ (∀ u, u ∈ map request kws → normalized_url u ∉ visited_urls self)
          ∧ sublist (map request kws) (section4_refs url soup)
          ∧ (∀ u, u ∈ section4_refs url soup → normalized_url u ∈ visited_urls final)
      end.
Proof.
  intros o final. subst final. unfold Crawler.scrape_letter_page.
  rewrite fetch_page_eq. fold o. destruct o as [soup|].
  - set (self1 := mkScraper _ _ _).
    pose proof (keyword_links_spec self1 url soup) as K. simpl in K.
    destruct (keyword_links self1 url soup) as [self2 links] eqn:EK. simpl in K.
    destruct K as (KR & KE & KV & Knd & Kfresh & Ksub & Kall).
    destruct (process_keywords_spec links self2) as (new & E & R & V & Q & C).
    exists new. rewrite E, R, V, KE, KR, KV, Q. subst self1. simpl.
    rewrite <- app_assoc. simpl.
    assert (map normalized_url (map snd links) = map key_of links) as Hk
      by (by rewrite map_map).
    rewrite Hk. repeat split; try done.
    + intros u Hu. apply list_elem_of_fmap in Hu as (l & -> & Hl).
      by apply Kfresh.
    + intros u Hu. rewrite <- KV. by apply Kall.
  - exists []. simpl. by rewrite app_nil_r.
Qed.

Lemma keyword_exchanges_app l1 l2 :
  keyword_exchanges (l1 ++ l2) = keyword_exchanges l1 ++ keyword_exchanges l2.
Proof. apply filter_app. Qed.

Lemma keyword_exchanges_all kws :
  Forall (λ e, caller e = FromKeyword) kws → keyword_exchanges kws = kws.
Proof.
  induction 1 as [|e kws He _ IH]; [done|].
  unfold Crawler.keyword_exchanges in *.
  rewrite filter_cons_True by done. by f_equal.
Qed.

Lemma keyword_exchanges_cons_other e l :
  caller e ≠ FromKeyword → keyword_exchanges (e :: l) = keyword_exchanges l.
Proof. intros H. unfold Crawler.keyword_exchanges. by rewrite filter_cons_False. Qed.

Lemma discovered_app l1 l2 : discovered (l1 ++ l2) = discovered l1 ++ discovered l2.
Proof. apply flat_map_app. Qed.

Lemma discovered_cons e l : discovered (e :: l) = refs_of e ++ discovered l.
Proof. reflexivity. Qed.

Lemma discovered_keywords kws :
  Forall (λ e, caller e = FromKeyword) kws → discovered kws = [].
Proof.
  induction 1 as [|e kws He _ IH]; [done|].
  unfold Crawler.discovered in *. simpl. rewrite IH.
  unfold Crawler.refs_of. by rewrite He.
Qed.

Lemma recorded_letter o url : recorded (mkExchange FromLetter url o) = None.
Proof. reflexivity. Qed.

Lemma consistent_init : consistent init.
Proof.
  split; simpl.
  - constructor.
  - intros k. set_solver.
  - intros u Hu. inversion Hu.
  - reflexivity.
Qed.

Lemma consistent_scrape_letter_page self letter url :
  consistent self → consistent (scrape_letter_page self letter url).
Proof.
  intros [Hnd Hvis Hdisc Hres].
  destruct (scrape_letter_page_spec self letter url) as (kws & E & C & R & M).
  set (o := Fetcher.fetch_catch _) in *.
  assert (keyword_requests (exchanges (scrape_letter_page self letter url))
          = keyword_requests (exchanges self) ++ map request kws) as Hreq.
  { rewrite E. unfold Crawler.keyword_requests.
    rewrite keyword_exchanges_app, keyword_exchanges_cons_other by done.
    rewrite (keyword_exchanges_all kws) by done.
    by rewrite map_app. }
  assert (discovered (exchanges (scrape_letter_page self letter url))
          = discovered (exchanges self)
              ++ match o with Some soup => section4_refs url soup | None => [] end)
    as Hd.
  { rewrite E, discovered_app, discovered_cons, (discovered_keywords kws) by done.
    rewrite app_nil_r. unfold Crawler.refs_of. simpl.
    by f_equal. }
  split.
  - rewrite Hreq, map_app. destruct o as [soup|].
    + destruct M as (V & Nd & Fresh & _).
      apply NoDup_app. split; [done|]. split; [|done].
      intros k Hk Hk'. apply Hvis in Hk.
      apply list_elem_of_fmap in Hk' as (u & -> & Hu). by apply (Fresh u).
    + destruct M as [-> _]. simpl. by rewrite app_nil_r.
  - intros k. rewrite Hreq, map_app, elem_of_app. destruct o as [soup|].
    + destruct M as (V & _). rewrite V, elem_of_union, elem_of_list_to_set, Hvis.
      tauto.
    + destruct M as [-> V]. rewrite V, Hvis. simpl. rewrite elem_of_nil. tauto.
  - intros u. rewrite Hd, elem_of_app. intros [Hu|Hu].
    + apply Hdisc in Hu. destruct o; [|destruct M as [_ ->]; done].
      destruct M as (V & _). rewrite V. set_solver.
    + destruct o as [soup|]; [|inversion Hu].
      destruct M as (_ & _ & _ & _ & Hall). by apply Hall.
  - rewrite R, E, Hres, omap_app. f_equal.
Qed.

Lemma consistent_scrape_letters links : ∀ self,
  consistent self → consistent (scrape_letters self links).
Proof.
  induction links as [|l links IH]; intros self H; [done|].
  simpl. apply IH. by apply consistent_scrape_letter_page.
Qed.

Lemma consistent_fetch_index self :
  consistent self → consistent (fetch_page FromIndex self index_url).1.
Proof.
  intros [Hnd Hvis Hdisc Hres]. rewrite fetch_page_eq. simpl.
  set (e := mkExchange _ _ _).
  assert (keyword_requests (exchanges self ++ [e]) = keyword_requests (exchanges self)) as Hreq.
  { unfold Crawler.keyword_requests.
    rewrite keyword_exchanges_app, keyword_exchanges_cons_other by done.
    by rewrite app_nil_r. }
  split; simpl; rewrite ?Hreq; try done.
  - intros u. rewrite discovered_app, discovered_cons. simpl.
    rewrite !app_nil_r. apply Hdisc.
  - rewrite omap_app. simpl. by rewrite app_nil_r.
Qed.

Lemma consistent_scrape_alphabet_index self :
  consistent self → consistent (scrape_alphabet_index self).
Proof.
  intros H. unfold Crawler.scrape_alphabet_index.
  pose proof (consistent_fetch_index self H) as H1.
  destruct (fetch_page FromIndex self index_url) as [self1 [soup|]]; simpl in H1.
  - by apply consistent_scrape_letters.
  - done.
Qed.

Local Abbreviation letter_block := (Crawler.letter_block urljoin).
Local Abbreviation attempts_for := (Crawler.attempts_for netloc path).

Lemma scrape_letters_blocks links : ∀ self,
  ∃ blocks,
    exchanges (scrape_letters self links) = exchanges self ++ concat blocks
    ∧ Forall2 letter_block links blocks
    ∧ results (scrape_letters self links)
      = results self ++ concat (map (omap recorded) blocks).
Proof.
  induction links as [|l links IH]; intros self.
  - exists []. simpl. rewrite !app_nil_r. repeat split. constructor.
  - simpl.
    destruct (scrape_letter_page_spec self l.1 l.2) as (kws & E & C & R & M).
    set (o := Fetcher.fetch_catch _) in *.
    destruct (IH (scrape_letter_page self l.1 l.2)) as (blocks & E' & B & R').
    exists ((mkExchange FromLetter l.2 o :: kws) :: blocks).
    unfold Crawler.scrape_letters in *. simpl.
    rewrite E', R', E, R. rewrite <- !app_assoc. simpl.
    split; [done|]. split; [|done].
    constructor; [|done].
    exists (mkExchange FromLetter l.2 o), kws. repeat split; try done.
    unfold Crawler.refs_of. simpl. destruct o as [soup|].
    + by destruct M as (_ & _ & _ & S & _).
    + by destruct M as [-> _].
Qed.

Lemma extract_url u soup : url (Extractor.extract u soup) = u.
Proof. unfold Extractor.extract. by destruct (Bs4.body soup). Qed.

Local Abbreviation fetched_after_discovery :=
  (Crawler.fetched_after_discovery urljoin).

Lemma scrape_letter_page_block self letter url :
  ∃ e kws,
    exchanges (scrape_letter_page self letter url) = exchanges self ++ e :: kws
    ∧ caller e = FromLetter
    ∧ Forall (λ k, caller k = FromKeyword) kws
    ∧ sublist (map request kws) (refs_of e).
Proof.
  destruct (scrape_letter_page_spec self letter url) as (kws & E & C & R & M).
  set (o := Fetcher.fetch_catch _) in *.
  exists (mkExchange FromLetter url o), kws. repeat split; try done.
  unfold Crawler.refs_of. simpl. destruct o as [soup|].
  - by destruct M as (_ & _ & _ & S & _).
  - by destruct M as [-> _].
Qed.

Lemma fetched_after_discovery_block log e kws :
  fetched_after_discovery log →
  caller e ≠ FromKeyword →
  sublist (map request kws) (refs_of e) →
  fetched_after_discovery (log ++ e :: kws).
Proof.
  intros Hlog He Hsub i x Hx Hc.
  destruct (decide (i < length log)%nat) as [Hi|Hi].
  - rewrite lookup_app_l in Hx by done.
    rewrite take_app_le by lia. by apply Hlog.
  - rewrite lookup_app_r in Hx by lia.
    destruct (i - length log)%nat as [|j] eqn:Ej; simpl in Hx.
    + injection Hx as ->. done.
    + rewrite take_app_ge by lia. rewrite Ej. simpl.
      rewrite discovered_app, discovered_cons.
      apply elem_of_app. right. apply elem_of_app. left.
      apply (sublist_subseteq _ _ Hsub), list_elem_of_fmap.
      exists x. split; [done|]. by apply list_elem_of_lookup_2 in Hx.
Qed.

Lemma fetched_after_discovery_letters links : ∀ self,
  fetched_after_discovery (exchanges self) →
  fetched_after_discovery (exchanges (scrape_letters self links)).
Proof.
  induction links as [|l links IH]; intros self H; [done|].
  simpl. apply IH.
  destruct (scrape_letter_page_block self l.1 l.2) as (e & kws & -> & He & _ & Hs).
  apply fetched_after_discovery_block; [done|by rewrite He|done].
Qed.

Lemma fetched_after_discovery_run :
  fetched_after_discovery (exchanges (scrape_alphabet_index init)).
Proof.
  assert (∀ o, fetched_after_discovery [mkExchange FromIndex index_url o]) as H0.
  { intros o [|i] x Hx Hc; simpl in Hx; [|done]. by injection Hx as <-. }
  unfold Crawler.scrape_alphabet_index. rewrite fetch_page_eq. simpl.
  destruct (Fetcher.fetch_catch _) as [soup|].
  - apply fetched_after_discovery_letters, H0.
  - apply H0.
Qed.

Lemma recorded_url e r : recorded e = Some r → caller e = FromKeyword ∧ url r = request e.
Proof.
  unfold Crawler.recorded. destruct (caller e); try done.
  destruct (fetched e); simpl; [|done]. intros [= <-]. by rewrite extract_url.
Qed.

Lemma records_for_recorded key log :
  records_for key (omap recorded log) = omap recorded (attempts_for key log).
Proof.
  unfold Crawler.records_for, Crawler.attempts_for, Crawler.keyword_exchanges.
  induction log as [|e log IH]; [done|].
  change (omap recorded (e :: log))
    with (match recorded e with
          | Some r => r :: omap recorded log
          | None => omap recorded log
          end).
  destruct (recorded e) as [r|] eqn:Hr.
  - destruct (recorded_url _ _ Hr) as [Hc Hu].
    rewrite (filter_cons_True (λ e, caller e = FromKeyword)) by done.
    destruct (decide (normalized_url (request e) = key)) as [Hk|Hk].
    + rewrite !filter_cons_True by (by rewrite ?Hu).
      rewrite IH. simpl. by rewrite Hr.
    + rewrite !filter_cons_False by (by rewrite ?Hu). done.
  - rewrite IH. destruct (decide (caller e = FromKeyword)) as [Hc|Hc].
    + rewrite (filter_cons_True (λ e, caller e = FromKeyword)) by done.
      destruct (decide (normalized_url (request e) = key)) as [Hk|Hk].
      * rewrite filter_cons_True by done. simpl. by rewrite Hr.
      * by rewrite filter_cons_False.
    + by rewrite (filter_cons_False (λ e, caller e = FromKeyword)).
Qed.

Lemma NoDup_filter_unique {A} (f : A → str) k (l : list A) :
  NoDup (map f l) → k ∈ map f l → ∃ x, filter (λ y, f y = k) l = [x].
Proof.
  induction l as [|a l IH]; simpl; intros Hnd Hin; [by inversion Hin|].
  apply NoDup_cons in Hnd as [Ha Hnd].
  destruct (decide (f a = k)) as [<-|Hne].
  - exists a. rewrite filter_cons_True by done. f_equal.
    clear IH Hin Hnd. induction l as [|b l IH]; [done|].
    rewrite filter_cons_False.
    + apply IH. intros H. apply Ha. simpl. by right.
    + intros Hb. apply Ha. simpl. rewrite Hb. by left.
  - rewrite filter_cons_False by done. apply IH; [done|].
    apply elem_of_cons in Hin as [Hin|Hin]; [congruence|done].
Qed.

Local Abbreviation as_letter_link := (Crawler.as_letter_link urljoin index_url).
Local Abbreviation letter_step := (Crawler.letter_step urljoin is_letter index_url).
Local Abbreviation accepted := (Crawler.accepted is_letter).
Local Abbreviation one_alphabetic := (Crawler.one_alphabetic is_letter).

Lemma one_alphabetic_test s :
  Nat.eqb (PyStr.len s) 1 && PyStr.isalpha is_letter s = true ↔ one_alphabetic s.
Proof.
  destruct s as [|c [|d s]]; simpl; try done.
  by rewrite andb_true_r.
Qed.

#[local] Arguments PyStr.contains : simpl never.
#[local] Arguments PyStr.startswith : simpl never.

Lemma letter_step_accepted acc a :
  letter_step acc a =
    if decide (accepted a) then acc ++ [as_letter_link a] else acc.
Proof.
  unfold Crawler.letter_step, Crawler.as_letter_link.
  pose proof (one_alphabetic_test (Bs4.get_text_strip (Bs4.node_of a))) as T.
  destruct (decide (accepted a)) as [[Ht Hh]|Hn].
  - assert ((Nat.eqb (PyStr.len (Bs4.get_text_strip (Bs4.node_of a))) 1
             && PyStr.isalpha is_letter (Bs4.get_text_strip (Bs4.node_of a)))
            || bool_decide (Bs4.get_text_strip (Bs4.node_of a) = "@") = true) as ->.
    { destruct Ht as [Ht|Ht].
      - apply T in Ht. by rewrite Ht.
      - rewrite (bool_decide_eq_true_2 _ Ht). apply orb_true_r. }
    assert (PyStr.contains "section4/" (Bs4.href a)
            || PyStr.startswith "#" (Bs4.href a) = true) as ->; [|done].
    destruct Hh as [-> | ->]; [done|apply orb_true_r].
  - destruct ((Nat.eqb (PyStr.len (Bs4.get_text_strip (Bs4.node_of a))) 1
               && PyStr.isalpha is_letter (Bs4.get_text_strip (Bs4.node_of a)))
              || bool_decide (Bs4.get_text_strip (Bs4.node_of a) = "@")) eqn:E1;
      [|done].
    destruct (PyStr.contains "section4/" (Bs4.href a)
              || PyStr.startswith "#" (Bs4.href a)) eqn:E2; [|done].
    exfalso. apply Hn. split.
    + apply orb_true_iff in E1 as [E1|E1]; [left; by apply T|right].
      by apply bool_decide_eq_true in E1.
    + apply orb_true_iff in E2 as [E2|E2]; [by left|by right].
Qed.

Lemma letter_fold elems : ∀ acc,
  fold_left letter_step elems acc
  = acc ++ map as_letter_link (filter accepted elems).
Proof.
  induction elems as [|a elems IH]; intros acc; simpl.
  - by rewrite app_nil_r.
  - rewrite IH, letter_step_accepted. destruct (decide (accepted a)).
    + rewrite filter_cons_True by done. simpl. by rewrite <- app_assoc.
    + by rewrite filter_cons_False.
Qed.

Lemma letter_text_single s :
  Crawler.letter_text is_letter s
  ↔ ∃ c, s = [c] ∧ (is_letter c = true ∨ c = ord "@").
Proof.
  unfold Crawler.letter_text. split.
  - intros [H| ->]; [|exists (ord "@"); by split; [|right]].
    destruct s as [|c [|d s]]; try done. exists c. by split; [|left].
  - intros (c & -> & [H| ->]); [by left|by right].
Qed.

(** Whether a text is one letter or [@] does not depend on how it is
    trimmed: string by string, as [get_text(strip=True)] does, or as a
    whole. *)
Lemma letter_text_trimmed n :
  Crawler.letter_text is_letter (Bs4.get_text_strip n)
  ↔ Crawler.letter_text is_letter (PyStr.strip (Bs4.get_text n)).
Proof.
  rewrite !letter_text_single. split; intros (c & H & Hc); exists c;
    (split; [by apply StripFacts.get_text_strip_single|done]).
Qed.


Lemma fetch_fails_None r :
  Crawler.fetch_fails r ↔ Fetcher.fetch_catch (Fetcher.fetch_try r) = None.
Proof.
  destruct r as [| |c p]; simpl; try tauto.
  unfold Fetcher.raise_for_status.
  destruct (400 <=? c)%Z eqn:H1; destruct (c <? 600)%Z eqn:H2; simpl;
    try (destruct p; simpl); split; try done; try (intros _; lia); try (by right);
    intros [?|?]; try done; lia.
Qed.


(** C10 (amended).  The first loop of [scrape_letter_page] makes no
    fetch and puts the normalized URL of every link it keeps into
    [visited_urls], where a later fetch, failed or not, leaves it; in a
    run every keyword exchange comes after the discovery of its link;
    so the exchanges made by [extract_keyword_content] have pairwise
    different normalized URLs, and a keyword exchange, failed ones
    included, is the only one for its normalized URL. *)
Theorem keyword_fetched_at_most_once :
  let final := scrape_alphabet_index init in
  (∀ self url soup,
     exchanges (keyword_links self url soup).1 = exchanges self
     ∧ Forall (λ l, key_of l ∈ visited_urls (keyword_links self url soup).1
                    ∧ key_of l ∉ visited_urls self)
         (keyword_links self url soup).2)
  ∧ (∀ self link, visited_urls (process_keyword self link) = visited_urls self)
  ∧ fetched_after_discovery (exchanges final)
  ∧ NoDup (map normalized_url (keyword_requests (exchanges final)))
  ∧ Forall (λ e, attempts_for (normalized_url (request e)) (exchanges final) = [e])
      (keyword_exchanges (exchanges final)).
Proof.
  intros final. split; [|split; [|split; [apply fetched_after_discovery_run|split]]].
  - intros self url soup.
    destruct (keyword_links_spec self url soup) as (_ & E & V & _ & F & _).
    split; [done|]. apply Forall_forall. intros l Hl. split; [|by apply F].
    rewrite V. apply elem_of_union_l, elem_of_list_to_set, list_elem_of_fmap. eauto.
  - intros self link. pose proof (process_keyword_eq self link) as P.
    simpl in P. by rewrite P.
  - apply (consistent_scrape_alphabet_index init consistent_init).
  - destruct (consistent_scrape_alphabet_index init consistent_init)
      as [Hnd _ _ _]. fold final in Hnd.
    unfold Crawler.keyword_requests in Hnd. rewrite map_map in Hnd.
    apply Forall_forall. intros e He.
    destruct (NoDup_filter_unique (λ e, normalized_url (request e))
                (normalized_url (request e)) (keyword_exchanges (exchanges final)) Hnd)
      as [e' He'].
    { apply list_elem_of_fmap. eauto. }
    unfold Crawler.attempts_for. rewrite He'. f_equal.
    assert (e ∈ [e']) as Hin
      by (rewrite <- He'; apply list_elem_of_filter; done).
    by apply list_elem_of_singleton in Hin.
Qed.


(** C4 (amended).  A fetch fails, and [fetch_page] returns [None],
    exactly when there is no connection, no answer in time, a status
    from 400 to 599, or a body the parser rejects.  When the fetch of a
    keyword page fails, [extract_keyword_content] returns [None], the
    step leaves [results] and [visited_urls] as they were, and the loop
    goes on: every link after the failed one is still asked for, in
    order, and the records of those that succeed are appended. *)
Theorem keyword_failure_is_isolated (self : Scraper)
    (link : Crawler.KeywordLink) (after : list Crawler.KeywordLink) :
  Crawler.fetch_fails (web (exchanges self) link.2) →
  let failed := process_keyword self link in
  (fetch_page FromKeyword self link.2).2 = None
  ∧ extract_keyword_content self link.2 = (failed, None)
  ∧ results failed = results self
  ∧ visited_urls failed = visited_urls self
  ∧ exchanges failed = exchanges self ++ [mkExchange FromKeyword link.2 None]
  ∧ (∃ new,
      exchanges (fold_left process_keyword (link :: after) self)
        = exchanges failed ++ new
      ∧ map request new = map snd after
      ∧ results (fold_left process_keyword (link :: after) self)
        = results self ++ omap recorded new)
  ∧ ∀ who other u,
      (fetch_page who other u).2 = None
      ↔ Crawler.fetch_fails (web (exchanges other) u).
Proof.
  intros Hf failed. apply fetch_fails_None in Hf.
  assert (process_keyword self link
          = mkScraper (visited_urls self) (results self)
              (exchanges self ++ [mkExchange FromKeyword link.2 None])) as P.
  { pose proof (process_keyword_eq self link) as P. simpl in P.
    rewrite P, Hf. simpl. by rewrite app_nil_r. }
  unfold Crawler.extract_keyword_content. subst failed.
  rewrite fetch_page_eq, Hf, P. simpl.
  repeat split; try done.
  - destruct (process_keywords_spec after (process_keyword self link))
      as (new & E & R & V & Q & C).
    exists new. rewrite P in E, R. simpl in E, R. rewrite P. by rewrite E, R.
  - by intros H; apply fetch_fails_None.
  - by intros H; apply fetch_fails_None.
Qed.

(** *** More on the session *)

Lemma scrape_letter_page_grows self letter url :
  visited_urls self ⊆ visited_urls (scrape_letter_page self letter url)
  ∧ results self `prefix_of` results (scrape_letter_page self letter url)
  ∧ exchanges self `prefix_of` exchanges (scrape_letter_page self letter url).
Proof.
  destruct (scrape_letter_page_spec self letter url) as (kws & E & C & R & M).
  rewrite E, R. split; [|split; by eexists].
  destruct (Fetcher.fetch_catch _) as [soup|].
  - destruct M as (-> & _). set_solver.
  - by destruct M as [_ ->].
Qed.

Lemma scrape_letters_grows links : ∀ self,
  visited_urls self ⊆ visited_urls (scrape_letters self links)
  ∧ results self `prefix_of` results (scrape_letters self links)
  ∧ exchanges self `prefix_of` exchanges (scrape_letters self links).
Proof.
  induction links as [|l links IH]; intros self; [done|].
  destruct (scrape_letter_page_grows self l.1 l.2) as (V & R & E).
  destruct (IH (scrape_letter_page self l.1 l.2)) as (V' & R' & E').
  change (scrape_letters self (l :: links))
    with (scrape_letters (scrape_letter_page self l.1 l.2) links).
  split; [by etrans|]. split; by etrans.
Qed.

Lemma session_grows_exchanges self :
  exchanges self `prefix_of` exchanges (scrape_alphabet_index self).
Proof.
  unfold Crawler.scrape_alphabet_index. rewrite fetch_page_eq.
  set (self1 := mkScraper _ _ _).
  assert (exchanges self `prefix_of` exchanges self1) as E1 by (by eexists).
  destruct (Fetcher.fetch_catch _) as [soup|]; [|done].
  destruct (scrape_letters_grows (letter_links soup) self1) as (_ & _ & E).
  by etrans.
Qed.

(** X3.  A crawl only adds to the session it starts from, whatever that
    session is and whatever the site answers: no visited URL is
    forgotten, and the results and the exchanges it had come first,
    unchanged, in those it has afterwards. *)
Theorem session_only_grows (self : Scraper) :
  visited_urls self ⊆ visited_urls (scrape_alphabet_index self)
  ∧ results self `prefix_of` results (scrape_alphabet_index self)
  ∧ exchanges self `prefix_of` exchanges (scrape_alphabet_index self).
Proof.
  unfold Crawler.scrape_alphabet_index. rewrite fetch_page_eq.
  set (self1 := mkScraper _ _ _).
  assert (exchanges self `prefix_of` exchanges self1) as E1 by (by eexists).
  destruct (Fetcher.fetch_catch _) as [soup|]; [|done].
  destruct (scrape_letters_grows (letter_links soup) self1) as (V & R & E).
  split; [done|]. split; [done|]. by etrans.
Qed.

Lemma letter_requests_blocks links : ∀ blocks,
  Forall2 letter_block links blocks →
  map request (filter (λ e, caller e = FromLetter) (concat blocks))
  = map snd links.
Proof.
  induction links as [|l links IH]; intros blocks H.
  - by apply Forall2_nil_inv_l in H as ->.
  - apply Forall2_cons_inv_l in H as (block & blocks' & B & H & ->).
    destruct B as (e & kws & -> & Ce & Re & Ck & _).
    simpl. rewrite filter_cons_True by done. rewrite filter_app.
    assert (filter (λ e, caller e = FromLetter) kws = []) as ->.
    { clear -Ck. induction Ck as [|k kws Hk _ IHk]; [done|].
      rewrite filter_cons_False; [done|]. by rewrite Hk. }
    simpl. by rewrite Re, IH.
Qed.


Lemma scrape_letter_page_failed self letter url :
  Fetcher.fetch_catch (Fetcher.fetch_try (web (exchanges self) url)) = None →
  scrape_letter_page self letter url
  = mkScraper (visited_urls self) (results self)
      (exchanges self ++ [mkExchange FromLetter url None]).
Proof.
  intros Hf. unfold Crawler.scrape_letter_page. by rewrite fetch_page_eq, Hf.
Qed.

Lemma scrape_letter_page_nothing_new self letter url soup :
  Fetcher.fetch_catch (Fetcher.fetch_try (web (exchanges self) url)) = Some soup →
  (∀ u, u ∈ section4_refs url soup → normalized_url u ∈ visited_urls self) →
  scrape_letter_page self letter url
  = mkScraper (visited_urls self) (results self)
      (exchanges self ++ [mkExchange FromLetter url (Some soup)]).
Proof.
  intros Hf Hv.
  destruct (scrape_letter_page_spec self letter url) as (kws & E & C & R & M).
  rewrite Hf in E, M. destruct M as (V & _ & Fresh & Sub & _).
  assert (kws = []) as ->.
  { destruct kws as [|k kws]; [done|]. exfalso.
    apply (Fresh (request k)); [simpl; by left|].
    apply Hv. apply (sublist_subseteq _ _ Sub). simpl. by left. }
  simpl in *. rewrite app_nil_r in R. rewrite (left_id_L ∅ (∪)) in V.
  destruct (scrape_letter_page self letter url). simpl in *. by subst.
Qed.

(** X5.  A letter page whose fetch fails is skipped: the session keeps
    its visited URLs and its results, the failed exchange is the only
    trace, and the loop over the letters goes on from there with the
    letters that follow. *)
Theorem failed_letter_page_skipped (self : Scraper)
    (link : Crawler.LetterLink) (after : list Crawler.LetterLink) :
  Crawler.fetch_fails (web (exchanges self) link.2) →
  let skipped :=
    mkScraper (visited_urls self) (results self)
      (exchanges self ++ [mkExchange FromLetter link.2 None]) in
  scrape_letter_page self link.1 link.2 = skipped
  ∧ scrape_letters self (link :: after) = scrape_letters skipped after
  ∧ discovered (exchanges skipped) = discovered (exchanges self).
Proof.
  intros Hf skipped. apply fetch_fails_None in Hf.
  assert (scrape_letter_page self link.1 link.2 = skipped) as E
    by (by apply scrape_letter_page_failed).
  split; [done|]. split.
  - change (scrape_letters self (link :: after))
      with (scrape_letters (scrape_letter_page self link.1 link.2) after).
    by rewrite E.
  - subst skipped. simpl. rewrite discovered_app, discovered_cons. simpl.
    by rewrite !app_nil_r.
Qed.

(** X6.  A letter page all of whose keyword links are visited already,
    as when the index links twice to one letter, is fetched again but
    leads to no keyword fetch and no record. *)
Theorem visited_links_not_fetched_again (self : Scraper)
    (letter url : str) (soup : Soup) :
  Fetcher.fetch_catch (Fetcher.fetch_try (web (exchanges self) url)) = Some soup →
  Forall (λ u, normalized_url u ∈ visited_urls self) (section4_refs url soup) →
  scrape_letter_page self letter url
  = mkScraper (visited_urls self) (results self)
      (exchanges self ++ [mkExchange FromLetter url (Some soup)]).
Proof.
  intros Hf Hv. rewrite Forall_forall in Hv.
  by apply scrape_letter_page_nothing_new.
Qed.

Lemma recorded_keys_sublist log :
  map (λ r, normalized_url (url r)) (omap recorded log)
  `sublist_of` map normalized_url (keyword_requests log).
Proof.
  unfold Crawler.keyword_requests, Crawler.keyword_exchanges.
  induction log as [|e log IH]; [done|].
  change (omap recorded (e :: log))
    with (match recorded e with
          | Some r => r :: omap recorded log
          | None => omap recorded log
          end).
  destruct (recorded e) as [r|] eqn:Hr.
  - destruct (recorded_url _ _ Hr) as [Hc Hu].
    rewrite filter_cons_True by done. simpl. rewrite Hu. by apply sublist_skip.
  - destruct (decide (caller e = FromKeyword)) as [Hc|Hc].
    + rewrite filter_cons_True by done. simpl. by apply sublist_cons.
    + by rewrite filter_cons_False.
Qed.

Lemma consistent_visited self :
  consistent self →
  visited_urls self
  = list_to_set (map normalized_url (keyword_requests (exchanges self))).
Proof.
  intros [_ Hvis _ _]. apply set_eq. intros k.
  by rewrite Hvis, elem_of_list_to_set.
Qed.

Lemma consistent_size self :
  consistent self →
  size (visited_urls self) = length (keyword_exchanges (exchanges self)).
Proof.
  intros H. rewrite (consistent_visited self H).
  rewrite size_list_to_set by apply H.
  unfold Crawler.keyword_requests. by rewrite !length_map.
Qed.


Lemma discovered_take i log u :
  u ∈ discovered (take i log) → u ∈ discovered log.
Proof.
  intros H. rewrite <- (take_drop i log), discovered_app.
  apply elem_of_app. by left.
Qed.

Lemma discovered_origin log u :
  u ∈ discovered log ↔
  ∃ e soup a,
    e ∈ log ∧ caller e = FromLetter ∧ fetched e = Some soup
    ∧ a ∈ Crawler.hyperlinks soup
    ∧ PyStr.contains "section4/" (Bs4.href a) = true
    ∧ u = urljoin (request e) (Bs4.href a).
Proof.
  assert (u ∈ discovered log ↔ ∃ e, e ∈ log ∧ u ∈ refs_of e) as ->.
  { induction log as [|e log IH].
    - split; [by inversion 1|]. intros (e & He & _). inversion He.
    - rewrite discovered_cons, elem_of_app, IH. split.
      + intros [H|(e' & He' & H)]; [exists e|exists e'];
          (split; [|done]); [by left|by right].
      + intros (e' & He' & H). apply elem_of_cons in He' as [->|He'];
          [by left|right; by exists e']. }
  split.
  - intros (e & He & Hu). unfold Crawler.refs_of in Hu.
    destruct (caller e) eqn:Ce; try (by inversion Hu).
    destruct (fetched e) as [soup|] eqn:Fe; [|by inversion Hu].
    unfold Crawler.section4_refs in Hu.
    apply list_elem_of_fmap in Hu as (a & -> & Ha).
    apply list_elem_of_filter in Ha as [Hc Ha].
    by exists e, soup, a.
  - intros (e & soup & a & He & Ce & Fe & Ha & Hc & ->).
    exists e. split; [done|].
    unfold Crawler.refs_of. rewrite Ce, Fe. unfold Crawler.section4_refs.
    apply list_elem_of_fmap. exists a. split; [done|].
    by apply list_elem_of_filter.
Qed.

(** X8.  Every record of a run is the extraction of a page that was
    fetched as a keyword page, carries the URL that was asked for, and
    that URL is a link of a fetched letter page whose [href] contains
    [section4/], resolved against the URL of that letter page: nothing
    else gets into the results. *)
Theorem records_come_from_letter_pages (r : PageRecord) :
  let final := scrape_alphabet_index init in
  r ∈ results final →
  ∃ k page e soup a,
    k ∈ exchanges final ∧ caller k = FromKeyword ∧ fetched k = Some page
    ∧ r = Extractor.extract (request k) page ∧ url r = request k
    ∧ e ∈ exchanges final ∧ caller e = FromLetter ∧ fetched e = Some soup
    ∧ a ∈ Crawler.hyperlinks soup
    ∧ PyStr.contains "section4/" (Bs4.href a) = true
    ∧ request k = urljoin (request e) (Bs4.href a).
Proof.
  intros final Hr.
  destruct (consistent_scrape_alphabet_index init consistent_init)
    as [_ _ _ Hres].
  fold final in Hres. rewrite Hres in Hr.
  apply list_elem_of_omap in Hr as (k & Hk & Hrec).
  destruct (recorded_url _ _ Hrec) as [Ck Hu].
  unfold Crawler.recorded in Hrec. rewrite Ck in Hrec.
  destruct (fetched k) as [page|] eqn:Fk; [|done]. injection Hrec as <-.
  apply list_elem_of_lookup in Hk as Hi. destruct Hi as [i Hi].
  pose proof (fetched_after_discovery_run i k Hi Ck) as Hd.
  apply discovered_take, discovered_origin in Hd
    as (e & soup & a & He & Ce & Fe & Ha & Hc & Eq).
  exists k, page, e, soup, a. repeat split; done.
Qed.

Lemma blocks_length links : ∀ blocks,
  Forall2 letter_block links blocks →
  length (concat blocks)
  = (length links + length (keyword_exchanges (concat blocks)))%nat.
Proof.
  induction links as [|l links IH]; intros blocks H.
  - by apply Forall2_nil_inv_l in H as ->.
  - apply Forall2_cons_inv_l in H as (block & blocks' & B & H & ->).
    destruct B as (e & kws & -> & Ce & Re & Ck & _).
    simpl. rewrite keyword_exchanges_cons_other by (by rewrite Ce).
    rewrite keyword_exchanges_app, (keyword_exchanges_all kws) by done.
    rewrite !length_app, (IH _ H). lia.
Qed.


(** *** A second crawl *)

Local Abbreviation static_site := (Program.static_site web).

Lemma letter_exchange_logged links : ∀ self l,
  static_site → l ∈ links →
  mkExchange FromLetter l.2
    (Fetcher.fetch_catch (Fetcher.fetch_try (web [] l.2)))
  ∈ exchanges (scrape_letters self links).
Proof.
  induction links as [|l' links IH]; intros self l Hs Hl; [inversion Hl|].
  change (scrape_letters self (l' :: links))
    with (scrape_letters (scrape_letter_page self l'.1 l'.2) links).
  apply elem_of_cons in Hl as [->|Hl]; [|by apply IH].
  destruct (scrape_letter_page_spec self l'.1 l'.2) as (kws & E & _).
  destruct (scrape_letters_grows links (scrape_letter_page self l'.1 l'.2))
    as (_ & _ & [rest Er]).
  rewrite Er, E, (Hs (exchanges self)). set_solver.
Qed.

Lemma refs_discovered log e u :
  e ∈ log → u ∈ refs_of e → u ∈ discovered log.
Proof.
  intros He Hu. apply list_elem_of_split in He as (l1 & l2 & ->).
  rewrite discovered_app, discovered_cons. set_solver.
Qed.

Lemma scrape_letters_nothing_new links : ∀ self,
  static_site →
  (∀ l soup u,
     l ∈ links →
     Fetcher.fetch_catch (Fetcher.fetch_try (web [] l.2)) = Some soup →
     u ∈ section4_refs l.2 soup → normalized_url u ∈ visited_urls self) →
  visited_urls (scrape_letters self links) = visited_urls self
  ∧ results (scrape_letters self links) = results self
  ∧ keyword_exchanges (exchanges (scrape_letters self links))
    = keyword_exchanges (exchanges self).
Proof.
  induction links as [|l links IH]; intros self Hs Hv; [done|].
  change (scrape_letters self (l :: links))
    with (scrape_letters (scrape_letter_page self l.1 l.2) links).
  assert (∃ o, scrape_letter_page self l.1 l.2
               = mkScraper (visited_urls self) (results self)
                   (exchanges self ++ [mkExchange FromLetter l.2 o]))
    as [o E].
  { destruct (Fetcher.fetch_catch
                (Fetcher.fetch_try (web (exchanges self) l.2)))
      as [soup|] eqn:Hf.
    - exists (Some soup). apply scrape_letter_page_nothing_new; [done|].
      intros u Hu. apply (Hv l soup u); [by left| |done].
      by rewrite <- (Hs (exchanges self)).
    - exists None. by apply scrape_letter_page_failed. }
  rewrite E.
  destruct (IH (mkScraper (visited_urls self) (results self)
                  (exchanges self ++ [mkExchange FromLetter l.2 o])) Hs)
    as (V & R & K).
  { intros l' soup u Hl' Hf Hu. simpl. apply (Hv l' soup u); [by right|done..]. }
  rewrite V, R, K. simpl.
  rewrite keyword_exchanges_app, keyword_exchanges_cons_other by done.
  by rewrite app_nil_r.
Qed.


Local Abbreviation run := (Program.run urljoin netloc path is_letter web).

(** X13.  When the index cannot be fetched, [run] still writes the
    file: it makes that one request, then puts an archive with no
    result and a count of zero in place of whatever the output path
    held, and returns normally. *)
Theorem failed_index_writes_empty_archive (output_file : str)
    (now : struct_time) (disk : gmap str str) :
  Crawler.fetch_fails (web [] index_url) →
  Json.valid_str index_url →
  let after := run index_url output_file now NoFault init disk in
  after.1.1 = mkScraper ∅ [] [mkExchange FromIndex index_url None]
  ∧ after.2 = Returns tt
  ∧ (∀ other, other ≠ output_file → after.1.2 !! other = disk !! other)
  ∧ ∃ text,
      after.1.2 !! output_file = Some text
      ∧ Json.loads text
        = Some (Json.JObj
                  [(py "base_url", Json.JStr (Json.join_pairs index_url));
                   (py "total_keywords", Json.JInt 0);
                   (py "scraped_date", Json.JStr (Writer.strftime now));
                   (py "results", Json.JArr [])]).
Proof.
  intros Hf Hu after. apply fetch_fails_None in Hf.
  assert (scrape_alphabet_index init
          = mkScraper ∅ [] [mkExchange FromIndex index_url None]) as E.
  { unfold Crawler.scrape_alphabet_index. rewrite fetch_page_eq. simpl.
    by rewrite Hf. }
  subst after. unfold Program.run. rewrite E. simpl.
  split; [done|]. split; [done|].
  split; [intros other Ho; by apply lookup_insert_ne|].
  eexists. split; [apply lookup_insert_eq|].
  rewrite JsonFacts.loads_dumps.
  - by rewrite WriterFacts.reread_run_archive.
  - apply WriterFacts.run_archive_valid; [done|constructor].
Qed.

End CrawlFacts.

(** ** Concrete runs *)



Lemma keyword_failure_is_isolated_broken :
  let web := Site.static Site.broken in
  let link : Crawler.KeywordLink := (py "ABS()", py "https://h/section4/abc.html") in
  let after : list Crawler.KeywordLink := [(py "A", py "https://h/section4/a.html")] in
  let failed := Crawler.process_keyword web Crawler.init link in
  (Crawler.fetch_page web FromKeyword Crawler.init link.2).2 = None
  ∧ Crawler.extract_keyword_content web Crawler.init link.2 = (failed, None)
  ∧ results failed = results Crawler.init
  ∧ visited_urls failed = visited_urls Crawler.init
  ∧ exchanges failed
    = exchanges Crawler.init ++ [mkExchange FromKeyword link.2 None]
  ∧ (∃ new,
      exchanges (fold_left (Crawler.process_keyword web) (link :: after) Crawler.init)
        = exchanges failed ++ new
      ∧ map request new = map snd after
      ∧ results (fold_left (Crawler.process_keyword web) (link :: after) Crawler.init)
        = results Crawler.init ++ omap Crawler.recorded new)
  ∧ ∀ who other u,
      (Crawler.fetch_page web who other u).2 = None
      ↔ Crawler.fetch_fails (web (exchanges other) u).
Proof.
  apply (keyword_failure_is_isolated Urllib.urljoin Urllib.netloc Urllib.path
           (Site.static Site.broken) Site.index Crawler.init
           (py "ABS()", py "https://h/section4/abc.html")
           [(py "A", py "https://h/section4/a.html")]).
  vm_compute. right. reflexivity.
Defined.

(** C4, as stated for every status that is not a success, fails:
    [raise_for_status] raises for the statuses 400 to 599 only, so a
    keyword page answered with [304] is fetched, and its record, with
    no title and no content, is appended. *)
Lemma not_modified_page_recorded :
  let web := Site.static Site.unchanged in
  let link : Crawler.KeywordLink :=
    (py "ABS()", py "https://h/section4/abc.html") in
  Crawler.fetch_fails_as_specified (web [] link.2)
  ∧ (Crawler.fetch_page web FromKeyword Crawler.init link.2).2 = Some []
  ∧ results (Crawler.process_keyword web Crawler.init link)
    = [mkPageRecord link.2 "No title" [] []]
  ∧ results (Site.run Site.unchanged Site.index)
    = [mkPageRecord link.2 "No title" [] []].
Proof.
  split; [|repeat split; reflexivity].
  change (¬ (200 ≤ 304 < 300)%Z ∨ Some (@nil Node) = None). left. lia.
Qed.

(** C10, as stated for every fetch, fails: the page of a letter that
    links to itself is fetched as a letter page and again as a keyword
    page. *)
Lemma letter_page_fetched_again :
  let final := Site.run Site.self_linked Site.index in
  map (λ e, (caller e, request e)) (exchanges final)
  = [(FromIndex, py "https://h/section4/");
     (FromLetter, py "https://h/section4/a.html");
     (FromKeyword, py "https://h/section4/a.html")]
  ∧ ¬ NoDup (map (Crawler.normalized_url Urllib.netloc Urllib.path)
              (map request (exchanges final))).
Proof.
  split; [vm_compute; reflexivity|].
  intros H. vm_compute in H.
  apply NoDup_cons in H as [_ H]. apply NoDup_cons in H as [H _].
  apply H. apply list_elem_of_here.
Qed.


(** ** More concrete runs *)

Lemma nested_text_emitted_twice_list :
  ∃ i j,
    (i < j)%nat
    ∧ text_content (Extractor.extract "https://h/section4/abc.html" Pages.list_page)
        !! i = Some (Extractor.text_of Pages.item_tag)
    ∧ text_content (Extractor.extract "https://h/section4/abc.html" Pages.list_page)
        !! j = Some (Extractor.text_of Pages.para_tag)
    ∧ ∃ before after,
        Extractor.text_of Pages.item_tag
        = before ++ Extractor.text_of Pages.para_tag ++ after.
Proof.
  apply (nested_text_emitted_twice "https://h/section4/abc.html"
           Pages.list_page Pages.list_body Pages.item_tag Pages.para_tag).
  - vm_compute. reflexivity.
  - vm_compute. apply list_elem_of_further, list_elem_of_here.
  - vm_compute. apply list_elem_of_here.
  - apply (bool_decide_unpack _). vm_compute. exact I.
  - apply (bool_decide_unpack _). vm_compute. exact I.
  - apply (bool_decide_unpack _). vm_compute. exact I.
  - apply (bool_decide_unpack _). vm_compute. exact I.
  - vm_compute. discriminate.
Defined.

Lemma failed_letter_page_skipped_missing :
  let web := Site.static [(Site.index, Site.index_page)] in
  let link : Crawler.LetterLink := (py "A", py "https://h/section4/a.html") in
  let after : list Crawler.LetterLink :=
    [(py "@", py "https://h/section4/at.html")] in
  let skipped :=
    mkScraper (visited_urls Crawler.init) (results Crawler.init)
      (exchanges Crawler.init ++ [mkExchange FromLetter link.2 None]) in
  Crawler.scrape_letter_page Urllib.urljoin Urllib.netloc Urllib.path web
    Crawler.init link.1 link.2 = skipped
  ∧ Crawler.scrape_letters Urllib.urljoin Urllib.netloc Urllib.path web
      Crawler.init (link :: after)
    = Crawler.scrape_letters Urllib.urljoin Urllib.netloc Urllib.path web
        skipped after
  ∧ Crawler.discovered Urllib.urljoin (exchanges skipped)
    = Crawler.discovered Urllib.urljoin (exchanges Crawler.init).
Proof.
  apply (failed_letter_page_skipped Urllib.urljoin Urllib.netloc Urllib.path
           (Site.static [(Site.index, Site.index_page)]) Site.index
           Crawler.init (py "A", py "https://h/section4/a.html")
           [(py "@", py "https://h/section4/at.html")]).
  vm_compute. right. reflexivity.
Defined.

Lemma visited_links_not_fetched_again_twice :
  Crawler.scrape_letter_page Urllib.urljoin Urllib.netloc Urllib.path
    (Site.static Pages.twice) Pages.after_first "A" "https://h/section4/a.html"
  = mkScraper (visited_urls Pages.after_first) (results Pages.after_first)
      (exchanges Pages.after_first
       ++ [mkExchange FromLetter "https://h/section4/a.html"
             (Some Pages.letter_a_soup)]).
Proof.
  apply (visited_links_not_fetched_again Urllib.urljoin Urllib.netloc
           Urllib.path (Site.static Pages.twice) Pages.after_first
           "A" "https://h/section4/a.html" Pages.letter_a_soup).
  - vm_compute. reflexivity.
  - apply (bool_decide_unpack _). vm_compute. exact I.
Defined.

Lemma records_come_from_letter_pages_small :
  let final := Site.run Site.small Site.index in
  ∃ k page e soup a,
    k ∈ exchanges final ∧ caller k = FromKeyword ∧ fetched k = Some page
    ∧ Pages.abs_record = Extractor.extract (request k) page
    ∧ url Pages.abs_record = request k
    ∧ e ∈ exchanges final ∧ caller e = FromLetter ∧ fetched e = Some soup
    ∧ a ∈ Crawler.hyperlinks soup
    ∧ PyStr.contains "section4/" (Bs4.href a) = true
    ∧ request k = Urllib.urljoin (request e) (Bs4.href a).
Proof.
  apply (records_come_from_letter_pages Urllib.urljoin Urllib.netloc
           Urllib.path Unicode.latin_letter (Site.static Site.small)
           Site.index Pages.abs_record).
  vm_compute. apply list_elem_of_here.
Defined.

Lemma failed_index_writes_empty_archive_offline :
  let after :=
    Program.run Urllib.urljoin Urllib.netloc Urllib.path Unicode.latin_letter
      (Site.static []) Site.index Scenario.output_file Scenario.now NoFault
      Crawler.init Scenario.disk in
  after.1.1 = mkScraper ∅ [] [mkExchange FromIndex Site.index None]
  ∧ after.2 = Returns tt
  ∧ (∀ other, other ≠ Scenario.output_file →
       after.1.2 !! other = Scenario.disk !! other)
  ∧ ∃ text,
      after.1.2 !! Scenario.output_file = Some text
      ∧ Json.loads text
        = Some (Json.JObj
                  [(py "base_url", Json.JStr (Json.join_pairs Site.index));
                   (py "total_keywords", Json.JInt 0);
                   (py "scraped_date",
                    Json.JStr (Writer.strftime Scenario.now));
                   (py "results", Json.JArr [])]).
Proof.
  apply (failed_index_writes_empty_archive Urllib.urljoin Urllib.netloc
           Urllib.path Unicode.latin_letter (Site.static []) Site.index
           Scenario.output_file Scenario.now Scenario.disk).
  - vm_compute. right. reflexivity.
  - apply (bool_decide_unpack _). vm_compute. exact I.
Defined.

Lemma inline_code_in_both_lists_paragraph :
  Extractor.text_of Pages.inline_code
    ∈ code_blocks (Extractor.extract "https://h/section4/abc.html" Pages.code_page)
  ∧ Extractor.text_of Pages.code_para
    ∈ text_content (Extractor.extract "https://h/section4/abc.html" Pages.code_page)
  ∧ ∃ before after,
      Extractor.text_of Pages.code_para
      = before ++ Extractor.text_of Pages.inline_code ++ after.
Proof.
  apply (inline_code_in_both_lists "https://h/section4/abc.html"
           Pages.code_page Pages.code_body Pages.code_para Pages.inline_code).
  - vm_compute. reflexivity.
  - vm_compute. apply list_elem_of_here.
  - vm_compute. apply list_elem_of_here.
  - apply (bool_decide_unpack _). vm_compute. exact I.
  - apply (bool_decide_unpack _). vm_compute. exact I.
  - apply (bool_decide_unpack _). vm_compute. exact I.
  - vm_compute. discriminate.
Defined.

